(** * API response handler: field resolution, normalisation and fallback

    A shallow embedding of [src/utils/apiResponseHandler.js]
    (classes [ApiResponseValidator] and [VuePressApiHandler]) and of the
    class [VuePressAiPlugin] of [src/utils/vuepressAiPlugin.js] (its
    constructor, [sendMessage] and the simulated [makeApiCall]).

    JavaScript values live in a store of objects, so that aliasing between
    the raw response and the record built from it is visible.  Functions of
    the source that read or write objects, read the clock or draw a random
    number are written in a state-and-exception monad over that store.

    Scope of the model.
    - Objects are ordinary objects and arrays whose prototypes are the
      built-in [Object.prototype] and [Array.prototype]; the inherited
      property names are those of ECMAScript 2023 together with the legacy
      accessor and helpers of its Annex B, as found in Node.js.
    - Numbers are mathematical integers; a string is held as its UTF-8
      bytes, and its length and characters are counted in UTF-16 code units.
    - A property read on a string, a number or a boolean is answered from
      the primitive and the prototype of its wrapper ([String.prototype],
      [Number.prototype], [Boolean.prototype]).  Functions are the methods of
      the built-in prototypes; of their properties the model only knows the
      names no such function has.
    - Console output is not modelled.
    - Where a run would need a part of the language that is not modelled
      (half of a character outside the basic plane, a property a function
      may have, the conversion to a number of a string that is not a decimal
      numeral or of an array that is not empty, calls of functions other
      than [push], [valueOf] and [toString], prototype mutation) the outcome
      is [Beyond].  Field extraction never ends there
      ([extractField_spec]); [validateAndNormalize_returns] and
      [handleApiResponse_returns] say when normalisation and the handler
      return a record. *)

From Stdlib Require Import ZArith Lia Ascii.
From stdpp Require Import base strings list pretty.

Open Scope string_scope.
Open Scope list_scope.
Open Scope Z_scope.

(** ** Values and the object store *)

Abbreviation loc := nat (only parsing).

Inductive builtin :=
| ObjectPrototype
| ArrayPrototype
| StringPrototype
| NumberPrototype
| BooleanPrototype.

Inductive value :=
| VUndefined
| VNull
| VBool (b : bool)
| VNum (n : Z)
| VStr (s : string)
| VFun (name : string)
| VBuiltin (b : builtin)
| VRef (l : loc).

Inductive object :=
| PlainObj (props : list (string * value))
| ArrayObj (elems : list value).

Abbreviation heap := (list object) (only parsing).

(** [typeof v] *)
Definition typeof (v : value) : string :=
  match v with
  | VUndefined => "undefined"
  | VNull => "object"
  | VBool _ => "boolean"
  | VNum _ => "number"
  | VStr _ => "string"
  | VFun _ => "function"
  | VBuiltin _ => "object"
  | VRef _ => "object"
  end.

(** ToBoolean, as used by [!v], [v && ...] and [v || ...]. *)
Definition truthy (v : value) : bool :=
  match v with
  | VUndefined | VNull => false
  | VBool b => b
  | VNum n => negb (n =? 0)
  | VStr s => negb (String.eqb s "")
  | VFun _ | VBuiltin _ | VRef _ => true
  end.

(** [v !== null] *)
Definition not_null (v : value) : bool :=
  match v with VNull => false | _ => true end.

(** ** Property tables *)

Fixpoint alist_get {A} (l : list (string * A)) (k : string) : option A :=
  match l with
  | [] => None
  | (k', a) :: l' => if String.eqb k' k then Some a else alist_get l' k
  end.

(** Assignment to a property: an existing key keeps its position, a new key
    goes last (insertion order). *)
Fixpoint alist_set {A} (l : list (string * A)) (k : string) (a : A)
  : list (string * A) :=
  match l with
  | [] => [(k, a)]
  | (k', a') :: l' =>
      if String.eqb k' k then (k, a) :: l' else (k', a') :: alist_set l' k a
  end.

Definition mem_string (k : string) (l : list string) : bool :=
  existsb (String.eqb k) l.

(** Function-valued properties of [Object.prototype]. *)
Definition Object_prototype_methods : list string :=
  [ "constructor"; "hasOwnProperty"; "isPrototypeOf"; "propertyIsEnumerable";
    "toLocaleString"; "toString"; "valueOf";
    "__defineGetter__"; "__defineSetter__";
    "__lookupGetter__"; "__lookupSetter__" ].

(** Function-valued properties of [Array.prototype]. *)
Definition Array_prototype_methods : list string :=
  [ "constructor"; "at"; "concat"; "copyWithin"; "entries"; "every"; "fill";
    "filter"; "find"; "findIndex"; "findLast"; "findLastIndex"; "flat";
    "flatMap"; "forEach"; "includes"; "indexOf"; "join"; "keys";
    "lastIndexOf"; "map"; "pop"; "push"; "reduce"; "reduceRight"; "reverse";
    "shift"; "slice"; "some"; "sort"; "splice"; "toLocaleString";
    "toReversed"; "toSorted"; "toSpliced"; "toString"; "unshift"; "values";
    "with" ].

(** Function-valued properties of [String.prototype]. *)
Definition String_prototype_methods : list string :=
  [ "constructor"; "at"; "charAt"; "charCodeAt"; "codePointAt"; "concat";
    "endsWith"; "includes"; "indexOf"; "lastIndexOf"; "localeCompare";
    "match"; "matchAll"; "normalize"; "padEnd"; "padStart"; "repeat";
    "replace"; "replaceAll"; "search"; "slice"; "split"; "startsWith";
    "substring"; "toLocaleLowerCase"; "toLocaleUpperCase"; "toLowerCase";
    "toString"; "toUpperCase"; "trim"; "trimEnd"; "trimStart"; "valueOf";
    "substr"; "anchor"; "big"; "blink"; "bold"; "fixed"; "fontcolor";
    "fontsize"; "italics"; "link"; "small"; "strike"; "sub"; "sup";
    "trimLeft"; "trimRight" ].

(** Function-valued properties of [Number.prototype]. *)
Definition Number_prototype_methods : list string :=
  [ "constructor"; "toExponential"; "toFixed"; "toLocaleString";
    "toPrecision"; "toString"; "valueOf" ].

(** Function-valued properties of [Boolean.prototype]. *)
Definition Boolean_prototype_methods : list string :=
  [ "constructor"; "toString"; "valueOf" ].

(** The function-valued properties a built-in prototype holds itself, and
    the name its functions go by. *)
Definition builtin_methods (b : builtin) : list string :=
  match b with
  | ObjectPrototype => Object_prototype_methods
  | ArrayPrototype => Array_prototype_methods
  | StringPrototype => String_prototype_methods
  | NumberPrototype => Number_prototype_methods
  | BooleanPrototype => Boolean_prototype_methods
  end.

Definition builtin_name (b : builtin) : string :=
  match b with
  | ObjectPrototype => "Object.prototype."
  | ArrayPrototype => "Array.prototype."
  | StringPrototype => "String.prototype."
  | NumberPrototype => "Number.prototype."
  | BooleanPrototype => "Boolean.prototype."
  end.

(** The name under which every object finds its prototype. *)
Definition proto_key : string := "__proto__".

(** Property names an object inherits, by the prototype it has. *)
Definition inherited (b : builtin) (k : string) : bool :=
  match b with
  | ObjectPrototype =>
      mem_string k Object_prototype_methods || String.eqb k proto_key
  | ArrayPrototype =>
      mem_string k Array_prototype_methods
      || mem_string k Object_prototype_methods || String.eqb k proto_key
  | StringPrototype =>
      mem_string k String_prototype_methods || String.eqb k "length"
      || mem_string k Object_prototype_methods || String.eqb k proto_key
  | NumberPrototype | BooleanPrototype =>
      mem_string k (builtin_methods b)
      || mem_string k Object_prototype_methods || String.eqb k proto_key
  end.

(** Own property names of the built-in prototype objects themselves:
    [Array.prototype] is an array of length 0 and [String.prototype] a string
    object of length 0. *)
Definition builtin_own (b : builtin) (k : string) : bool :=
  match b with
  | ObjectPrototype => inherited ObjectPrototype k
  | ArrayPrototype =>
      mem_string k Array_prototype_methods || String.eqb k "length"
  | StringPrototype =>
      mem_string k String_prototype_methods || String.eqb k "length"
  | NumberPrototype | BooleanPrototype => mem_string k (builtin_methods b)
  end.

(** The value found by looking [k] up along the prototype chain that starts
    at the built-in [b], for an object whose own prototype is [self]. *)
Definition inherited_get (self : value) (b : builtin) (k : string) : value :=
  if String.eqb k proto_key then self
  else match b with
       | ObjectPrototype =>
           if mem_string k Object_prototype_methods
           then VFun ("Object.prototype." +:+ k) else VUndefined
       | ArrayPrototype =>
           if mem_string k Array_prototype_methods
           then VFun ("Array.prototype." +:+ k)
           else if mem_string k Object_prototype_methods
                then VFun ("Object.prototype." +:+ k) else VUndefined
       | StringPrototype | NumberPrototype | BooleanPrototype =>
           if mem_string k (builtin_methods b)
           then VFun (builtin_name b +:+ k)
           else if mem_string k Object_prototype_methods
                then VFun ("Object.prototype." +:+ k) else VUndefined
       end.

(** Array indices are the keys that are canonical decimal numerals. *)
Definition digit_of (c : ascii) : option nat :=
  let n := nat_of_ascii c in
  if ((48 <=? n) && (n <=? 57))%nat then Some (n - 48)%nat else None.

Fixpoint parse_digits (acc : nat) (s : string) : option nat :=
  match s with
  | EmptyString => Some acc
  | String c s' =>
      match digit_of c with
      | Some d => parse_digits (10 * acc + d)%nat s'
      | None => None
      end
  end.

Definition array_index (k : string) : option nat :=
  match k with
  | EmptyString => None
  | String "0"%char EmptyString => Some 0%nat
  | String "0"%char _ => None
  | _ => parse_digits 0 k
  end.

(** Index keys of an array with [n] elements: the numerals below [n]. *)
Definition index_of_key (n : nat) (k : string) : option nat :=
  match array_index k with
  | Some i => if (i <? n)%nat then Some i else None
  | None => None
  end.

Definition own_property (o : object) (k : string) : bool :=
  match o with
  | PlainObj props => bool_decide (is_Some (alist_get props k))
  | ArrayObj elems =>
      String.eqb k "length"
      || bool_decide (is_Some (index_of_key (length elems) k))
  end.

Definition class_proto (o : object) : builtin :=
  match o with
  | PlainObj _ => ObjectPrototype
  | ArrayObj _ => ArrayPrototype
  end.

(** [k in o] *)
Definition object_has (o : object) (k : string) : bool :=
  own_property o k || inherited (class_proto o) k.

(** [o[k]] *)
Definition object_get (o : object) (k : string) : value :=
  match o with
  | PlainObj props =>
      match alist_get props k with
      | Some v => v
      | None => inherited_get (VBuiltin ObjectPrototype) ObjectPrototype k
      end
  | ArrayObj elems =>
      if String.eqb k "length" then VNum (Z.of_nat (length elems))
      else match index_of_key (length elems) k with
           | Some i => default VUndefined (elems !! i)
           | None => inherited_get (VBuiltin ArrayPrototype) ArrayPrototype k
           end
  end.

(** The object a reference denotes.  Every reference the program creates is
    allocated; a reference outside the store reads as an empty object. *)
Definition deref (h : heap) (l : loc) : object :=
  default (PlainObj []) (h !! l).

(** [k in v], for [v] a non-null value of type ["object"]. *)
Definition has_property (h : heap) (v : value) (k : string) : bool :=
  match v with
  | VRef l => object_has (deref h l) k
  | VBuiltin ObjectPrototype => builtin_own ObjectPrototype k
  | VBuiltin ArrayPrototype =>
      builtin_own ArrayPrototype k || inherited ObjectPrototype k
  | VBuiltin b => builtin_own b k || inherited ObjectPrototype k
  | _ => false
  end.

(** [v[k]], for [v] a non-null value of type ["object"]. *)
Definition get_property (h : heap) (v : value) (k : string) : value :=
  match v with
  | VRef l => object_get (deref h l) k
  | VBuiltin ObjectPrototype => inherited_get VNull ObjectPrototype k
  | VBuiltin ArrayPrototype =>
      if String.eqb k "length" then VNum 0
      else inherited_get (VBuiltin ObjectPrototype) ArrayPrototype k
  | VBuiltin StringPrototype =>
      if String.eqb k "length" then VNum 0
      else inherited_get (VBuiltin ObjectPrototype) StringPrototype k
  | VBuiltin b => inherited_get (VBuiltin ObjectPrototype) b k
  | _ => VUndefined
  end.

Definition is_object (v : value) : bool :=
  truthy v && String.eqb (typeof v) "object".

(** [path.split('.')] *)
Fixpoint split_dot (s : string) : list string :=
  match s with
  | EmptyString => [EmptyString]
  | String c s' =>
      if Ascii.eqb c "."%char then EmptyString :: split_dot s'
      else match split_dot s' with
           | [] => [String c EmptyString]
           | w :: ws => String c w :: ws
           end
  end.

(** ** The runtime: store, clock, random source, exceptions *)

Record state := State {
  st_heap : heap;
  st_clock : nat;    (* how many times the clock has been read *)
  st_random : nat    (* how many random numbers have been drawn *)
}.

Inductive exn := TypeError (msg : string).

Inductive outcome (A : Type) :=
| Ok (a : A) (s : state)
| Throw (e : exn) (s : state)
| Beyond.

Arguments Ok {A} a s.
Arguments Throw {A} e s.
Arguments Beyond {A}.

Definition M (A : Type) : Type := state -> outcome A.

#[global] Instance M_ret : MRet M := fun A a s => Ok a s.

#[global] Instance M_bind : MBind M := fun A B f m s =>
  match m s with
  | Ok a s' => f a s'
  | Throw e s' => Throw e s'
  | Beyond => Beyond
  end.

Definition throw {A} (e : exn) : M A := fun s => Throw e s.

Definition beyond {A} : M A := fun _ => Beyond.

(** [try { body } catch (error) { handler }] *)
Definition try_catch {A} (body : M A) (handler : exn -> M A) : M A := fun s =>
  match body s with
  | Ok a s' => Ok a s'
  | Throw e s' => handler e s'
  | Beyond => Beyond
  end.

Definition read {A} (f : heap -> A) : M A := fun s => Ok (f (st_heap s)) s.

(** A new object gets the next free location. *)
Definition alloc (o : object) : M loc := fun s =>
  Ok (length (st_heap s))
     (State (st_heap s ++ [o]) (st_clock s) (st_random s)).

(** The UTF-16 code units of a string, which is held as its UTF-8 bytes:
    each unit that is a whole character, as the string of that character,
    and [None] for each of the two halves of a character outside the basic
    plane.  The bytes are read from the end, [pending] being the
    continuation bytes that wait for their lead byte. *)
Fixpoint utf16_scan (s : string) : string * list (option string) :=
  match s with
  | EmptyString => (EmptyString, [])
  | String c s' =>
      let '(pending, units) := utf16_scan s' in
      let n := nat_of_ascii c in
      if ((128 <=? n) && (n <? 192))%nat then (String c pending, units)
      else if (n <? 240)%nat
           then (EmptyString, Some (String c pending) :: units)
           else (EmptyString, None :: None :: units)
  end.

Definition utf16_units (s : string) : list (option string) :=
  (utf16_scan s).2.

(** The functions the model knows: the methods of the built-in prototypes. *)
Definition builtin_function (name : string) : bool :=
  existsb
    (fun b => existsb (fun m => String.eqb name (builtin_name b +:+ m))
                      (builtin_methods b))
    [ObjectPrototype; ArrayPrototype; StringPrototype; NumberPrototype;
     BooleanPrototype].

(** Every name under which one of these functions, the constructors among
    them, may hold or inherit a property. *)
Definition function_property_names : list string :=
  [ "length"; "name"; "prototype"; "arguments"; "caller";
    "apply"; "bind"; "call"; "constructor"; "toString" ]
  ++ Object_prototype_methods ++ [proto_key]
  ++ [ "assign"; "create"; "defineProperties"; "defineProperty"; "entries";
       "freeze"; "fromEntries"; "getOwnPropertyDescriptor";
       "getOwnPropertyDescriptors"; "getOwnPropertyNames";
       "getOwnPropertySymbols"; "getPrototypeOf"; "groupBy"; "hasOwn"; "is";
       "isExtensible"; "isFrozen"; "isSealed"; "keys"; "preventExtensions";
       "seal"; "setPrototypeOf"; "values";
       "from"; "fromAsync"; "isArray"; "of";
       "fromCharCode"; "fromCodePoint"; "raw";
       "EPSILON"; "MAX_SAFE_INTEGER"; "MAX_VALUE"; "MIN_SAFE_INTEGER";
       "MIN_VALUE"; "NaN"; "NEGATIVE_INFINITY"; "POSITIVE_INFINITY";
       "isFinite"; "isInteger"; "isNaN"; "isSafeInteger"; "parseFloat";
       "parseInt" ].

(** [v[k]] for a primitive [v] or a function: the property is looked up on
    the wrapper object of the primitive.  A string has its length and its
    code units as own properties.  Of a function the model only knows which
    names it cannot have; [None] is a read the model does not determine. *)
Definition primitive_get (v : value) (k : string) : option value :=
  match v with
  | VStr s =>
      let units := utf16_units s in
      if String.eqb k "length" then Some (VNum (Z.of_nat (length units)))
      else match index_of_key (length units) k with
           | Some i =>
               match units !! i with
               | Some (Some c) => Some (VStr c)
               | _ => None
               end
           | None =>
               Some (inherited_get (VBuiltin StringPrototype) StringPrototype k)
           end
  | VNum _ =>
      Some (inherited_get (VBuiltin NumberPrototype) NumberPrototype k)
  | VBool _ =>
      Some (inherited_get (VBuiltin BooleanPrototype) BooleanPrototype k)
  | VFun name =>
      if builtin_function name && negb (mem_string k function_property_names)
      then Some VUndefined else None
  | _ => None
  end.

(** [v[k]] without any guard: a TypeError on [undefined] and [null]. *)
Definition get_member (v : value) (k : string) : M value :=
  match v with
  | VUndefined | VNull =>
      throw (TypeError ("Cannot read properties of " +:+ typeof v))
  | VRef _ | VBuiltin _ => read (fun h => get_property h v k)
  | VBool _ | VNum _ | VStr _ | VFun _ =>
      match primitive_get v k with
      | Some a => mret a
      | None => beyond
      end
  end.

(** [o[k] = v] for the object at [l].  All inherited properties are writable
    data properties, except the accessor [__proto__]. *)
Definition set_member (l : loc) (k : string) (v : value) : M unit := fun s =>
  match st_heap s !! l with
  | Some (PlainObj props) =>
      if String.eqb k proto_key && negb (own_property (PlainObj props) k)
      then Beyond
      else Ok tt (State (<[l := PlainObj (alist_set props k v)]> (st_heap s))
                        (st_clock s) (st_random s))
  | _ => Beyond
  end.

(** [recv.push(x)], where [f] is the value of [recv.push]. *)
Definition call_push (recv f x : value) : M unit := fun s =>
  match f with
  | VFun name =>
      match recv with
      | VRef l =>
          match st_heap s !! l with
          | Some (ArrayObj elems) =>
              if String.eqb name "Array.prototype.push"
              then Ok tt (State (<[l := ArrayObj (elems ++ [x])]> (st_heap s))
                                (st_clock s) (st_random s))
              else Beyond
          | _ => Beyond
          end
      | _ => Beyond
      end
  | _ => throw (TypeError "push is not a function") s
  end.

(** [o > 0] for a plain object: [valueOf], then [toString], each called if
    it is a function.  The inherited [valueOf] answers the object itself, so
    the conversion goes on; the inherited [toString] answers
    ["[object Object]"], which is no number; and when neither yields a
    primitive the conversion throws. *)
Definition plain_greater_than_zero (props : list (string * value)) : M bool :=
  let by_toString : M bool :=
    match object_get (PlainObj props) "toString" with
    | VFun name =>
        if String.eqb name "Object.prototype.toString" then mret false
        else beyond
    | _ => throw (TypeError "Cannot convert object to primitive value")
    end in
  match object_get (PlainObj props) "valueOf" with
  | VFun name =>
      if String.eqb name "Object.prototype.valueOf" then by_toString
      else beyond
  | _ => by_toString
  end.

(** [v > 0].  [undefined] converts to NaN and [null] to 0; the empty string
    converts to 0 and a string of decimal digits to the number it denotes;
    the built-in prototypes convert to 0 or NaN and a function to NaN, as
    does the empty array. *)
Definition greater_than_zero (v : value) : M bool :=
  match v with
  | VNum n => mret (0 <? n)
  | VUndefined | VNull => mret false
  | VBool b => mret b
  | VStr s =>
      match s, parse_digits 0 s with
      | EmptyString, _ => mret false
      | _, Some n => mret (0 <? n)%nat
      | _, None => beyond
      end
  | VBuiltin _ => mret false
  | VFun name => if builtin_function name then mret false else beyond
  | VRef l => fun s =>
      match deref (st_heap s) l with
      | ArrayObj [] => Ok false s
      | ArrayObj _ => Beyond
      | PlainObj props => plain_greater_than_zero props s
      end
  end.

Fixpoint for_each {A} (l : list A) (body : A -> M unit) : M unit :=
  match l with
  | [] => mret tt
  | x :: l' => body x ;; for_each l' body
  end.

(** [s.includes(sub)] *)
Fixpoint includes (sub s : string) : bool :=
  String.prefix sub s
  || match s with
     | EmptyString => false
     | String _ s' => includes sub s'
     end.

(** What the program observes of its environment: the readings of the clock
    in milliseconds, in the order they are taken; the random draws, each
    already rendered by [toString(36).substr(2, 9)]; and the rendering of an
    instant by [toISOString]. *)
Record runtime := {
  Date_now : nat -> Z;
  Math_random36 : nat -> string;
  toISOString : Z -> string
}.

Section Runtime.

Variable rt : runtime.

Definition date_now : M Z := fun s =>
  Ok (Date_now rt (st_clock s))
     (State (st_heap s) (S (st_clock s)) (st_random s)).

Definition math_random36 : M string := fun s =>
  Ok (Math_random36 rt (st_random s))
     (State (st_heap s) (st_clock s) (S (st_random s))).

(** [new Date().toISOString()] *)
Definition new_Date_toISOString : M string :=
  now ← date_now; mret (toISOString rt now).

(** ** ApiResponseValidator *)

Record ApiResponseValidator := {
  fieldMappings : list (string * list string);
  defaultValues : list (string * value)
}.

Definition generateFallbackId : M string :=
  now ← date_now;
  r ← math_random36;
  mret ("fallback-" +:+ pretty now +:+ "-" +:+ r).

(** The synonym table the constructor installs. *)
Definition reference_fieldMappings : list (string * list string) :=
  [ ("content", ["content"; "text"; "message"; "response"; "result"]);
    ("id", ["id"; "messageId"; "requestId"; "uuid"]);
    ("timestamp", ["timestamp"; "created_at"; "time"; "date"]);
    ("model", ["model"; "model_name"; "modelName"; "version"]);
    ("usage", ["usage"; "token_usage"; "tokenUsage"; "consumption"]);
    ("error", ["error"; "error_message"; "errorMessage"; "message"]) ].

Definition new_ApiResponseValidator : M ApiResponseValidator :=
  id ← generateFallbackId;
  timestamp ← new_Date_toISOString;
  usage ← alloc (PlainObj [("total_tokens", VNum 0)]);
  mret {|
    fieldMappings := reference_fieldMappings;
    defaultValues :=
      [ ("content", VStr "");
        ("id", VStr id);
        ("timestamp", VStr timestamp);
        ("model", VStr "unknown-model");
        ("usage", VRef usage);
        ("error", VNull) ]
  |}.

Fixpoint hasNestedProperty_loop (current : value) (keys : list string)
  : M bool :=
  match keys with
  | [] => mret true
  | key :: keys' =>
      present ← read (fun h => is_object current && has_property h current key);
      if present : bool
      then current' ← get_member current key;
           hasNestedProperty_loop current' keys'
      else mret false
  end.

Definition hasNestedProperty (obj : value) (path : string) : M bool :=
  hasNestedProperty_loop obj (split_dot path).

Fixpoint getNestedProperty_loop (current : value) (keys : list string)
  : M value :=
  match keys with
  | [] => mret current
  | key :: keys' =>
      current' ← get_member current key;
      getNestedProperty_loop current' keys'
  end.

Definition getNestedProperty (obj : value) (path : string) : M value :=
  getNestedProperty_loop obj (split_dot path).

(** [this.fieldMappings[fieldName] || [fieldName]], as iterated by [for ... of]:
    an own entry is an array; a name found on [Object.prototype] yields a
    function or the prototype object, which is truthy and not iterable. *)
Definition possibleKeys (this : ApiResponseValidator) (fieldName : string)
  : M (list string) :=
  match alist_get (fieldMappings this) fieldName with
  | Some keys => mret keys
  | None =>
      if inherited ObjectPrototype fieldName
      then throw (TypeError "possibleKeys is not iterable")
      else mret [fieldName]
  end.

Fixpoint extractField_loop (response : value) (keys : list string) : M value :=
  match keys with
  | [] => mret VNull
  | key :: keys' =>
      present ← hasNestedProperty response key;
      if present : bool
      then getNestedProperty response key
      else extractField_loop response keys'
  end.

Definition extractField (this : ApiResponseValidator) (response : value)
    (fieldName : string) : M value :=
  keys ← possibleKeys this fieldName;
  extractField_loop response keys.

(** [this.defaultValues[field]] *)
Definition default_of (this : ApiResponseValidator) (field : string) : value :=
  object_get (PlainObj (defaultValues this)) field.

Definition apology : string :=
  "抱歉，API响应处理出现问题，请稍后重试。".

Definition createFallbackResponse : M value :=
  id ← generateFallbackId;
  timestamp ← new_Date_toISOString;
  usage ← alloc (PlainObj [("total_tokens", VNum 0)]);
  vtimestamp ← new_Date_toISOString;
  issues ← alloc (ArrayObj [VStr "Complete fallback response generated"]);
  validation ← alloc (PlainObj [("timestamp", VStr vtimestamp);
                                ("issues", VRef issues)]);
  r ← alloc (PlainObj [("content", VStr apology);
                       ("id", VStr id);
                       ("timestamp", VStr timestamp);
                       ("model", VStr "fallback-model");
                       ("usage", VRef usage);
                       ("error", VStr "API compatibility issue detected");
                       ("_validation", VRef validation)]);
  mret (VRef r).

Definition optionalFields : list string :=
  ["id"; "timestamp"; "model"; "usage"; "error"].

(** [normalizedResponse._validation.issues.push(`Missing field: ${field}`)] *)
Definition push_issue (normalizedResponse : loc) (field : string) : M unit :=
  validation ← get_member (VRef normalizedResponse) "_validation";
  issues ← get_member validation "issues";
  push ← get_member issues "push";
  call_push issues push (VStr ("Missing field: " +:+ field)).

Definition required_step (this : ApiResponseValidator) (response : value)
    (normalizedResponse : loc) (field : string) : M unit :=
  value ← extractField this response field;
  if not_null value
  then set_member normalizedResponse field value
  else set_member normalizedResponse field (default_of this field) ;;
       push_issue normalizedResponse field.

Definition optional_step (this : ApiResponseValidator) (response : value)
    (normalizedResponse : loc) (field : string) : M unit :=
  current ← get_member (VRef normalizedResponse) field;
  if negb (truthy current)
  then value ← extractField this response field;
       set_member normalizedResponse field
         (if not_null value then value else default_of this field)
  else mret tt.

Definition validateAndNormalize (this : ApiResponseValidator)
    (response : value) (requiredFields : list string) : M value :=
  if negb (truthy response) || negb (String.eqb (typeof response) "object")
  then createFallbackResponse
  else
    timestamp ← new_Date_toISOString;
    issues ← alloc (ArrayObj []);
    validation ← alloc (PlainObj [("timestamp", VStr timestamp);
                                  ("issues", VRef issues)]);
    normalizedResponse ← alloc (PlainObj [("_original", response);
                                          ("_validation", VRef validation)]);
    for_each requiredFields (required_step this response normalizedResponse) ;;
    for_each optionalFields (optional_step this response normalizedResponse) ;;
    mret (VRef normalizedResponse).

(** ** VuePressApiHandler *)

Record VuePressApiHandler := {
  validator : ApiResponseValidator;
  errorCount : Z;
  maxErrors : Z
}.

Definition new_VuePressApiHandler : M VuePressApiHandler :=
  v ← new_ApiResponseValidator;
  mret {| validator := v; errorCount := 0; maxErrors := 5 |}.

Record options := {
  requiredFields : list string;
  enableLogging : bool;
  enableFallback : bool
}.

(** [options = {}] after destructuring with its defaults. *)
Definition default_options : options :=
  {| requiredFields := ["content"];
     enableLogging := true;
     enableFallback := true |}.

Definition set_errorCount (this : VuePressApiHandler) (n : Z)
  : VuePressApiHandler :=
  {| validator := validator this; errorCount := n;
     maxErrors := maxErrors this |}.

(** The call returns the normalised response together with the handler as
    the call leaves it.  [enableLogging] and the test of the count against
    [maxErrors] inside the call only decide what is written to the
    console. *)
Definition handleApiResponse (this : VuePressApiHandler) (apiResponse : value)
    (opts : options) : M (value * VuePressApiHandler) :=
  try_catch
    (normalizedResponse ←
       validateAndNormalize (validator this) apiResponse (requiredFields opts);
     validation ← get_member normalizedResponse "_validation";
     issues ← get_member validation "issues";
     len ← get_member issues "length";
     some_issue ← greater_than_zero len;
     if some_issue : bool
     then mret (normalizedResponse, set_errorCount this (errorCount this + 1))
     else mret (normalizedResponse, set_errorCount this 0))
    (fun error =>
       if enableFallback opts
       then r ← createFallbackResponse; mret (r, this)
       else throw error).

Definition getRecommendations (this : VuePressApiHandler) : list string :=
  (if 0 <? errorCount this
   then ["检查API响应格式是否发生变化"; "考虑更新字段映射配置"]
   else [])
  ++ (if maxErrors this <? errorCount this
      then ["建议联系API提供方确认版本兼容性"; "考虑实施API版本检测机制"]
      else []).

Record ErrorReport := {
  report_timestamp : string;
  report_errorCount : Z;
  report_maxErrors : Z;
  report_status : string;
  report_recommendations : list string
}.

Definition generateErrorReport (this : VuePressApiHandler) : M ErrorReport :=
  timestamp ← new_Date_toISOString;
  mret {| report_timestamp := timestamp;
          report_errorCount := errorCount this;
          report_maxErrors := maxErrors this;
          report_status :=
            if maxErrors this <? errorCount this then "critical" else "normal";
          report_recommendations := getRecommendations this |}.

(** [result._validation.issues.length > 0], as the handler and the plugin
    test it on a response. *)
Definition issues_flag (result : value) : M bool :=
  validation ← get_member result "_validation";
  issues ← get_member validation "issues";
  len ← get_member issues "length";
  greater_than_zero len.


(** ** VuePressAiPlugin ([src/utils/vuepressAiPlugin.js]) *)

Record PluginStats := {
  totalRequests : Z;
  successfulRequests : Z;
  failedRequests : Z;
  compatibilityIssues : Z
}.

Record VuePressAiPlugin := {
  apiHandler : VuePressApiHandler;
  plugin_options : list (string * value);
  stats : PluginStats
}.

(** [a || b] *)
Definition or_else (a b : value) : value := if truthy a then a else b.

(** [{ ...target, ...source }]: the own properties of the source, in order,
    assigned onto the target. *)
Definition spread_into (target source : list (string * value))
  : list (string * value) :=
  foldl (fun acc p => alist_set acc p.1 p.2) target source.

(** [new VuePressAiPlugin(options)], for the own properties of [options]. *)
Definition new_VuePressAiPlugin (options : list (string * value))
  : M VuePressAiPlugin :=
  handler ← new_VuePressApiHandler;
  let option_or name fallback :=
    (name, or_else (object_get (PlainObj options) name) fallback) in
  mret {|
    apiHandler := handler;
    plugin_options :=
      spread_into
        [ option_or "apiEndpoint" (VStr "/api/ai/chat");
          option_or "timeout" (VNum 30000);
          option_or "retryCount" (VNum 3);
          option_or "enableDebug" (VBool false) ]
        options;
    stats := {| totalRequests := 0; successfulRequests := 0;
                failedRequests := 0; compatibilityIssues := 0 |}
  |}.

(** The statements of a [try] block up to the next one that can throw, the
    rest of the block, and the [catch] clause as it applies at that point. *)
Definition try_then {A B} (m : M A) (rest : A -> M B) (handler : exn -> M B)
  : M B := fun s =>
  match m s with
  | Ok a s' => rest a s'
  | Throw e s' => handler e s'
  | Beyond => Beyond
  end.

(** The options [sendMessage] passes to the handler; a destructured
    [enableLogging] that is [undefined] takes its default. *)
Definition sendMessage_options (this : VuePressAiPlugin) : options :=
  {| requiredFields := ["content"; "id"];
     enableLogging :=
       match object_get (PlainObj (plugin_options this)) "enableDebug" with
       | VUndefined => true
       | v => truthy v
       end;
     enableFallback := true |}.

Definition count_request (st : PluginStats) : PluginStats :=
  {| totalRequests := totalRequests st + 1;
     successfulRequests := successfulRequests st;
     failedRequests := failedRequests st;
     compatibilityIssues := compatibilityIssues st |}.

Definition count_failure (st : PluginStats) : PluginStats :=
  {| totalRequests := totalRequests st;
     successfulRequests := successfulRequests st;
     failedRequests := failedRequests st + 1;
     compatibilityIssues := compatibilityIssues st |}.

Definition count_success (some_issue : bool) (st : PluginStats) : PluginStats :=
  {| totalRequests := totalRequests st;
     successfulRequests := successfulRequests st + 1;
     failedRequests := failedRequests st;
     compatibilityIssues :=
       if some_issue then compatibilityIssues st + 1
       else compatibilityIssues st |}.

(** [sendMessage(message, context)], where [makeApiCall] stands for the call
    [this.makeApiCall(message, context)] it awaits.  The call returns the
    response together with the plugin as the call leaves it. *)
Definition sendMessage (this : VuePressAiPlugin) (makeApiCall : M value)
  : M (value * VuePressAiPlugin) :=
  let counted := count_request (stats this) in
  let failed (handler : VuePressApiHandler) (error : exn)
    : M (value * VuePressAiPlugin) :=
    r ← createFallbackResponse;
    mret (r, {| apiHandler := handler;
                plugin_options := plugin_options this;
                stats := count_failure counted |}) in
  try_then makeApiCall
    (fun rawApiResponse =>
       try_then
         (handleApiResponse (apiHandler this) rawApiResponse
            (sendMessage_options this))
         (fun '(safeResponse, handler) =>
            try_then (issues_flag safeResponse)
              (fun some_issue =>
                 mret (safeResponse,
                       {| apiHandler := handler;
                          plugin_options := plugin_options this;
                          stats := count_success some_issue counted |}))
              (failed handler))
         (failed (apiHandler this)))
    (failed (apiHandler this)).

(** [makeApiCall(message, context)].  [pick k] is the [k]-th random draw
    scaled by the number of versions and rounded down; the delay has no
    effect on the result. *)
Definition makeApiCall (pick : nat -> nat) (message : string) : M value :=
  let reply := VStr ("AI回复: " +:+ message) in
  t1 ← new_Date_toISOString;
  u1 ← alloc (PlainObj [("total_tokens", VNum 150)]);
  v1 ← alloc (PlainObj [("content", reply);
                        ("id", VStr "msg_123456");
                        ("timestamp", VStr t1);
                        ("model", VStr "ai-model-v1");
                        ("usage", VRef u1)]);
  t2 ← new_Date_toISOString;
  u2 ← alloc (PlainObj [("total", VNum 150)]);
  v2 ← alloc (PlainObj [("text", reply);
                        ("messageId", VStr "msg_789012");
                        ("created_at", VStr t2);
                        ("model_name", VStr "ai-model-v2");
                        ("token_usage", VRef u2)]);
  t3 ← new_Date_toISOString;
  metadata ← alloc (PlainObj [("id", VStr "msg_345678");
                              ("timestamp", VStr t3);
                              ("model", VStr "ai-model-v3")]);
  data ← alloc (PlainObj [("message", reply); ("metadata", VRef metadata)]);
  u3 ← alloc (PlainObj [("total_tokens", VNum 150)]);
  v3 ← alloc (PlainObj [("data", VRef data); ("usage", VRef u3)]);
  v4 ← alloc (PlainObj [("response", reply); ("model", VStr "ai-model-v4")]);
  apiVersions ← alloc (ArrayObj [VRef v1; VRef v2; VRef v3; VRef v4]);
  i ← (fun s => Ok (pick (st_random s))
                   (State (st_heap s) (st_clock s) (S (st_random s))));
  get_member (VRef apiVersions) (pretty i).

End Runtime.

(** ** What the traversals compute *)

(** Presence of a path: every step starts at a non-null object that has the
    next key, own or inherited. *)
Fixpoint has_path (h : heap) (current : value) (keys : list string) : bool :=
  match keys with
  | [] => true
  | key :: keys' =>
      is_object current && has_property h current key
      && has_path h (get_property h current key) keys'
  end.

(** The value at the end of a path. *)
Definition follow (h : heap) (current : value) (keys : list string) : value :=
  foldl (get_property h) current keys.

Definition present (h : heap) (response : value) (key : string) : bool :=
  has_path h response (split_dot key).

(** The value of the first candidate key that is present, [null] when none
    is. *)
Definition extract_value (h : heap) (response : value) (keys : list string)
  : value :=
  match find (present h response) keys with
  | Some key => follow h response (split_dot key)
  | None => VNull
  end.

(** The candidate keys of a field, [None] when the table yields something
    that cannot be iterated. *)
Definition field_keys (this : ApiResponseValidator) (fieldName : string)
  : option (list string) :=
  match alist_get (fieldMappings this) fieldName with
  | Some keys => Some keys
  | None => if inherited ObjectPrototype fieldName then None else Some [fieldName]
  end.

(** ** What normalisation computes *)

(** A field is missing when extraction answers [null]. *)
Definition field_missing (this : ApiResponseValidator) (h : heap)
    (response : value) (field : string) : bool :=
  match field_keys this field with
  | Some keys => negb (not_null (extract_value h response keys))
  | None => false
  end.

(** The value a field receives: the extracted one, or its default when it is
    missing. *)
Definition field_value (this : ApiResponseValidator) (h : heap)
    (response : value) (field : string) : value :=
  match field_keys this field with
  | Some keys =>
      let v := extract_value h response keys in
      if not_null v then v else default_of this field
  | None => VUndefined
  end.

Definition issue_of (field : string) : value :=
  VStr ("Missing field: " +:+ field).

(** The store while a response is normalised: the objects that were there
    before the call, then the issues array, the [_validation] record and the
    record under construction. *)
Definition building (h : heap) (vprops : list (string * value))
    (iss : list value) (props : list (string * value)) : heap :=
  h ++ [ArrayObj iss; PlainObj vprops; PlainObj props].

Definition validation_props (h : heap) (timestamp : string)
  : list (string * value) :=
  [("timestamp", VStr timestamp); ("issues", VRef (length h))].

(** One round of the loop over the required fields, on the issues recorded
    and the properties set so far. *)
Definition required_acc (this : ApiResponseValidator) (response : value)
    (h : heap) (vprops : list (string * value))
    (acc : list value * list (string * value)) (field : string)
  : list value * list (string * value) :=
  let hk := building h vprops acc.1 acc.2 in
  (if field_missing this hk response field
   then acc.1 ++ [issue_of field] else acc.1,
   alist_set acc.2 field (field_value this hk response field)).

(** One round of the loop over the optional fields. *)
Definition optional_acc (this : ApiResponseValidator) (response : value)
    (h : heap) (vprops : list (string * value)) (iss : list value)
    (props : list (string * value)) (field : string)
  : list (string * value) :=
  if truthy (object_get (PlainObj props) field) then props
  else alist_set props field
         (field_value this (building h vprops iss props) response field).

(** The issues list of a normalised response, [r._validation.issues]. *)
Definition issues_of (h : heap) (r : value) : option (list value) :=
  match get_property h (get_property h r "_validation") "issues" with
  | VRef a =>
      match h !! a with
      | Some (ArrayObj elems) => Some elems
      | _ => None
      end
  | _ => None
  end.

(** The record under construction when the loops start. *)
Definition initial_props (h : heap) (response : value)
  : list (string * value) :=
  [("_original", response); ("_validation", VRef (S (length h)))].

(** The rendering of the [k]-th reading of the clock. *)
Definition timestamp_at (rt : runtime) (k : nat) : string :=
  toISOString rt (Date_now rt k).

(** The store in which a call that returned or threw has ended. *)
Definition final_state {A} (o : outcome A) : option state :=
  match o with
  | Ok _ s | Throw _ s => Some s
  | Beyond => None
  end.

(** References below a bound, and stores all of whose references are
    allocated. *)
Definition value_below (n : nat) (v : value) : Prop :=
  match v with
  | VRef l => (l < n)%nat
  | _ => True
  end.

Definition object_below (n : nat) (o : object) : Prop :=
  match o with
  | PlainObj props => Forall (fun p => value_below n p.2) props
  | ArrayObj elems => Forall (value_below n) elems
  end.

Definition closed_heap (h : heap) : Prop :=
  Forall (object_below (length h)) h.

(** A key the object holds itself, not through its prototype. *)
Definition own_key (h : heap) (v : value) (k : string) : bool :=
  match v with
  | VRef l => own_property (deref h l) k
  | VBuiltin b => builtin_own b k
  | _ => false
  end.

(** A path resolves: every segment starts at a non-null object that, in the
    sense of [has], contains the next segment. *)
Inductive path_resolves (has : heap -> value -> string -> bool) (h : heap)
  : value -> list string -> Prop :=
| resolves_nil v : path_resolves has h v []
| resolves_cons v key keys :
    is_object v = true ->
    has h v key = true ->
    path_resolves has h (get_property h v key) keys ->
    path_resolves has h v (key :: keys).

(** ** Decidable equality of values and outcomes *)

#[global] Instance builtin_eq_dec : EqDecision builtin.
Proof. solve_decision. Defined.

#[global] Instance value_eq_dec : EqDecision value.
Proof. solve_decision. Defined.

#[global] Instance object_eq_dec : EqDecision object.
Proof. solve_decision. Defined.

#[global] Instance state_eq_dec : EqDecision state.
Proof. solve_decision. Defined.

#[global] Instance exn_eq_dec : EqDecision exn.
Proof. solve_decision. Defined.

#[global] Instance outcome_eq_dec {A} `{EqDecision A} : EqDecision (outcome A).
Proof. solve_decision. Defined.

(** ** Shapes the statements refer to *)

(** Strings of decimal digits, as the clock reading in an identifier. *)
Definition is_digit (c : ascii) : bool := bool_decide (is_Some (digit_of c)).

Fixpoint all_digits (s : string) : bool :=
  match s with
  | EmptyString => true
  | String c s' => is_digit c && all_digits s'
  end.

(** A key that no array answers to: not [length], not an index, not a name
    arrays inherit. *)
Definition array_blind (k : string) : bool :=
  negb (String.eqb k "length")
  && negb (bool_decide (is_Some (array_index k)))
  && negb (inherited ArrayPrototype k).

(** The object at a location of a later store [H], against an earlier store
    [h]: a plain object is as it was, an array is still an array. *)
Definition same_object (l : loc) (h H : heap) : Prop :=
  match h !! l with
  | Some (PlainObj props) => H !! l = Some (PlainObj props)
  | Some (ArrayObj _) => exists elems, H !! l = Some (ArrayObj elems)
  | None => H !! l = None
  end.

(** What the steps of a normalisation do to the store, the record under
    construction at [nr] apart. *)
Definition store_evolves (nr : loc) (h H : heap) : Prop :=
  forall l, l <> nr -> same_object l h H.

(** The counters of a plugin add up: every request counted is either
    successful or failed, and a compatibility issue is only counted with a
    successful request. *)
Definition stats_consistent (st : PluginStats) : Prop :=
  totalRequests st = successfulRequests st + failedRequests st
  /\ 0 <= compatibilityIssues st <= successfulRequests st
  /\ 0 <= failedRequests st.

(** The defaults the plugin's constructor writes with [||]. *)
Definition plugin_defaults : list (string * value) :=
  [ ("apiEndpoint", VStr "/api/ai/chat");
    ("timeout", VNum 30000);
    ("retryCount", VNum 3);
    ("enableDebug", VBool false) ].

Definition simulated_reply (message : string) : value :=
  VStr ("AI回复: " +:+ message).

(** The objects one simulated call allocates, in a store that held [n]
    objects, with the three timestamps it reads. *)
Definition simulated_versions (n : nat) (t1 t2 t3 message : string)
  : list object :=
  [ PlainObj [("total_tokens", VNum 150)];
    PlainObj [("content", simulated_reply message);
              ("id", VStr "msg_123456");
              ("timestamp", VStr t1);
              ("model", VStr "ai-model-v1");
              ("usage", VRef n)];
    PlainObj [("total", VNum 150)];
    PlainObj [("text", simulated_reply message);
              ("messageId", VStr "msg_789012");
              ("created_at", VStr t2);
              ("model_name", VStr "ai-model-v2");
              ("token_usage", VRef (2 + n))];
    PlainObj [("id", VStr "msg_345678");
              ("timestamp", VStr t3);
              ("model", VStr "ai-model-v3")];
    PlainObj [("message", simulated_reply message);
              ("metadata", VRef (4 + n))];
    PlainObj [("total_tokens", VNum 150)];
    PlainObj [("data", VRef (5 + n)); ("usage", VRef (6 + n))];
    PlainObj [("response", simulated_reply message);
              ("model", VStr "ai-model-v4")];
    ArrayObj [VRef (1 + n); VRef (3 + n); VRef (7 + n); VRef (8 + n)] ]%nat.

(** Where the four versions are, counted from the first object the call
    allocates. *)
Definition version_offset (i : nat) : nat :=
  match i with
  | 0 => 1
  | 1 => 3
  | 2 => 7
  | _ => 8
  end%nat.

(** The issues normalisation records for the four versions. *)
Definition simulated_issues (i : nat) : list value :=
  match i with
  | 0 | 1 => []
  | 2 => [issue_of "content"; issue_of "id"]
  | _ => [issue_of "id"]
  end%nat.

(** ** Sample data *)

Definition sample_runtime : runtime :=
  {| Date_now := fun k => 1700000000000 + Z.of_nat k;
     Math_random36 := fun k => "k3j9x2m" +:+ pretty k;
     toISOString := fun t => "T" +:+ pretty t |}.

(** The validator and the store as the constructor leaves them when it runs
    first, under [sample_runtime]. *)
Definition sample_validator : ApiResponseValidator :=
  {| fieldMappings := reference_fieldMappings;
     defaultValues :=
       [ ("content", VStr "");
         ("id", VStr "fallback-1700000000000-k3j9x2m0");
         ("timestamp", VStr "T1700000000001");
         ("model", VStr "unknown-model");
         ("usage", VRef 0%nat);
         ("error", VNull) ] |}.

Definition sample_usage : object := PlainObj [("total_tokens", VNum 0)].

Definition sample_state (objects : list object) : state :=
  State (sample_usage :: objects) 2 1.

Definition sample_handler : VuePressApiHandler :=
  {| validator := sample_validator; errorCount := 2; maxErrors := 5 |}.

(** [{}] and [{ content: null }] *)
Definition sample_objects : list object :=
  [PlainObj []; PlainObj [("content", VNull)]].

(** [{ text: "a", content: "b" }] *)
Definition sample_synonyms : list object :=
  [PlainObj [("text", VStr "a"); ("content", VStr "b")]].

Definition text_first_validator : ApiResponseValidator :=
  {| fieldMappings := [("content", ["text"; "content"])];
     defaultValues := defaultValues sample_validator |}.

(** [{ text: "a" }] and [{ response: "r", result: "z" }] *)
Definition sample_text_only : list object := [PlainObj [("text", VStr "a")]].

Definition sample_response_only : list object :=
  [PlainObj [("response", VStr "r"); ("result", VStr "z")]].

(** [{ content: "x" }] *)
Definition sample_content : list object := [PlainObj [("content", VStr "x")]].

(** The store of the aliasing example: an empty array, an object whose
    [issues] is that array, and a response whose [_validation] is that
    object. *)
Definition sample_aliased : list object :=
  [ArrayObj [];
   PlainObj [("issues", VRef 1%nat)];
   PlainObj [("_validation", VRef 2%nat)]].

(** A new handler processes one input with the default options, as in
    [testFallbackResponse] of [src/utils/apiCompatibilityTest.js]: the
    content and the error of the result, and the error count after the
    call. *)
Definition handle_and_inspect (rt : runtime) (input : M value)
  : M (value * value * Z) :=
  this ← new_VuePressApiHandler rt;
  apiResponse ← input;
  '(result, this') ← handleApiResponse rt this apiResponse default_options;
  content ← get_member result "content";
  error ← get_member result "error";
  mret (content, error, errorCount this').

(** Three calls on [{}], then one on [{ content: "ok" }], on a new handler:
    the error count after each call. *)
Definition three_issues_then_none (rt : runtime) : M (Z * Z * Z * Z) :=
  this ← new_VuePressApiHandler rt;
  empty ← alloc (PlainObj []);
  '(_, this1) ← handleApiResponse rt this (VRef empty) default_options;
  '(_, this2) ← handleApiResponse rt this1 (VRef empty) default_options;
  '(_, this3) ← handleApiResponse rt this2 (VRef empty) default_options;
  good ← alloc (PlainObj [("content", VStr "ok")]);
  '(_, this4) ← handleApiResponse rt this3 (VRef good) default_options;
  mret (errorCount this1, errorCount this2, errorCount this3, errorCount this4).

(** Two normalisations of [{}] by a new validator, one after the other: the
    [id] of each of the two records. *)
Definition normalize_twice : M (value * value) :=
  this ← new_ApiResponseValidator sample_runtime;
  empty ← alloc (PlainObj []);
  first ← validateAndNormalize sample_runtime this (VRef empty) ["content"];
  second ← validateAndNormalize sample_runtime this (VRef empty) ["content"];
  id1 ← get_member first "id";
  id2 ← get_member second "id";
  mret (id1, id2).

(** [{ data: { message: "hi" }, empty: null }] *)
Definition sample_nested : list object :=
  [PlainObj [("data", VRef 2%nat); ("empty", VNull)];
   PlainObj [("message", VStr "hi")]].

(** [{ message: "hi" }] *)
Definition sample_message : list object := [PlainObj [("message", VStr "hi")]].

(** The validator after [fieldMappings.content.push('data.message')], as in
    [testNestedFieldExtraction] of [src/utils/apiCompatibilityTest.js]. *)
Definition nested_validator : ApiResponseValidator :=
  {| fieldMappings :=
       ("content",
        ["content"; "text"; "message"; "response"; "result"; "data.message"])
       :: drop 1 reference_fieldMappings;
     defaultValues := defaultValues sample_validator |}.






(** A plugin after three requests, one of them failed and one with a
    compatibility issue. *)
Definition sample_plugin : VuePressAiPlugin :=
  {| apiHandler := sample_handler;
     plugin_options :=
       [ ("apiEndpoint", VStr "/api/ai/chat");
         ("timeout", VNum 30000);
         ("retryCount", VNum 3);
         ("enableDebug", VBool true) ];
     stats := {| totalRequests := 3; successfulRequests := 2;
                 failedRequests := 1; compatibilityIssues := 1 |} |}.

(** An API call that is rejected, and one that resolves to a given value. *)
Definition failing_call : M value := throw (TypeError "fetch failed").

Definition returning_call (v : value) : M value := mret v.

(** [{ timeout: 0, enableDebug: true }] *)
Definition sample_plugin_options : list (string * value) :=
  [("timeout", VNum 0); ("enableDebug", VBool true)].

Ltac not_in_list :=
  repeat (apply not_elem_of_cons; split; [discriminate|]);
  apply not_elem_of_nil.

Ltac closed_sample :=
  unfold closed_heap; cbn; repeat (constructor; cbn; try lia).

(** * Properties *)

(** ** The model at sample inputs *)

Example index_of_key_in_range : index_of_key 12 "10" = Some 10%nat.
Proof. reflexivity. Qed.

Example index_of_key_not_canonical : index_of_key 12 "01" = None.
Proof. reflexivity. Qed.

Example split_dot_nested : split_dot "data.metadata.id" = ["data"; "metadata"; "id"].
Proof. reflexivity. Qed.

Example split_dot_empty : split_dot "" = [""].
Proof. reflexivity. Qed.

Example sample_validator_constructed :
  new_ApiResponseValidator sample_runtime (State [] 0 0)
  = Ok sample_validator (sample_state []).
Proof. reflexivity. Qed.

Lemma bind_Ok {A B} (m : M A) (f : A -> M B) s a s' :
  m s = Ok a s' -> (m ≫= f) s = f a s'.
Proof. intros H. unfold mbind, M_bind. now rewrite H. Qed.

Lemma is_object_cases v :
  is_object v = true -> (exists l, v = VRef l) \/ (exists b, v = VBuiltin b).
Proof.
  unfold is_object.
  destruct v; simpl; rewrite ?andb_false_r; intros; try discriminate; eauto.
Qed.

Lemma get_member_object v k s :
  is_object v = true -> get_member v k s = Ok (get_property (st_heap s) v k) s.
Proof. intros [[l ->]|[b ->]]%is_object_cases; reflexivity. Qed.

Lemma hasNestedProperty_loop_spec keys : forall current s,
  hasNestedProperty_loop current keys s = Ok (has_path (st_heap s) current keys) s.
Proof.
  induction keys as [|key keys IH]; intros current s; [reflexivity|].
  cbn [hasNestedProperty_loop has_path].
  unfold mbind, M_bind, read.
  destruct (is_object current) eqn:Hobj; cbn [andb].
  - destruct (has_property (st_heap s) current key); cbn [andb]; [|reflexivity].
    rewrite get_member_object by done. apply IH.
  - reflexivity.
Qed.

Lemma has_path_step h current key keys :
  has_path h current (key :: keys) = true ->
  is_object current = true /\ has_property h current key = true
  /\ has_path h (get_property h current key) keys = true.
Proof. cbn [has_path]. rewrite !andb_true_iff. tauto. Qed.

Lemma getNestedProperty_loop_guarded keys : forall current s,
  has_path (st_heap s) current keys = true ->
  getNestedProperty_loop current keys s = Ok (follow (st_heap s) current keys) s.
Proof.
  induction keys as [|key keys IH]; intros current s Hp; [reflexivity|].
  apply has_path_step in Hp as (Hobj & _ & Hrest).
  cbn [getNestedProperty_loop].
  erewrite bind_Ok by (apply get_member_object; exact Hobj).
  now apply IH.
Qed.

Lemma hasNestedProperty_spec obj path s :
  hasNestedProperty obj path s = Ok (present (st_heap s) obj path) s.
Proof. apply hasNestedProperty_loop_spec. Qed.

Lemma getNestedProperty_guarded obj path s :
  present (st_heap s) obj path = true ->
  getNestedProperty obj path s = Ok (follow (st_heap s) obj (split_dot path)) s.
Proof. apply getNestedProperty_loop_guarded. Qed.

Lemma extractField_loop_spec response keys : forall s,
  extractField_loop response keys s
  = Ok (extract_value (st_heap s) response keys) s.
Proof.
  induction keys as [|key keys IH]; intros s; [reflexivity|].
  cbn [extractField_loop].
  erewrite bind_Ok by apply hasNestedProperty_spec.
  unfold extract_value. cbn [find].
  destruct (present (st_heap s) response key) eqn:Hp.
  - now apply getNestedProperty_guarded.
  - apply IH.
Qed.

Lemma possibleKeys_spec this fieldName s :
  possibleKeys this fieldName s
  = match field_keys this fieldName with
    | Some keys => Ok keys s
    | None => Throw (TypeError "possibleKeys is not iterable") s
    end.
Proof.
  unfold possibleKeys, field_keys.
  destruct (alist_get (fieldMappings this) fieldName); [reflexivity|].
  now destruct (inherited ObjectPrototype fieldName).
Qed.

Lemma extractField_spec this response fieldName s :
  extractField this response fieldName s
  = match field_keys this fieldName with
    | Some keys => Ok (extract_value (st_heap s) response keys) s
    | None => Throw (TypeError "possibleKeys is not iterable") s
    end.
Proof.
  unfold extractField, mbind, M_bind. rewrite possibleKeys_spec.
  destruct (field_keys this fieldName); [apply extractField_loop_spec|reflexivity].
Qed.

(** ** Presence of a dot-path *)

Lemma has_path_resolves h keys : forall v,
  has_path h v keys = true <-> path_resolves has_property h v keys.
Proof.
  induction keys as [|key keys IH]; intros v.
  - split; [constructor|reflexivity].
  - split.
    + intros (Hobj & Hhas & Hrest)%has_path_step.
      constructor; [done..|]. now apply IH.
    + inversion 1; subst. cbn [has_path].
      rewrite !andb_true_iff. repeat split; [done..|]. now apply IH.
Qed.

(** C6, as the code has it: the presence test of a dot-path always answers,
    and it answers yes exactly when every segment starts at a non-null object
    that has the next segment as a key, its own or one inherited from its
    prototype. *)
Theorem hasNestedProperty_iff_path_resolves obj path s :
  exists b, hasNestedProperty obj path s = Ok b s
    /\ (b = true <-> path_resolves has_property (st_heap s) obj (split_dot path)).
Proof.
  eexists. split; [apply hasNestedProperty_spec|].
  apply has_path_resolves.
Qed.

(** C6 as stated fails: [constructor] is not an own key of the empty object,
    yet the presence test holds for it. *)
Lemma hasNestedProperty_counts_inherited_keys :
  hasNestedProperty (VRef 1%nat) "constructor" (sample_state [PlainObj []])
  = Ok true (sample_state [PlainObj []])
  /\ ~ path_resolves own_key (st_heap (sample_state [PlainObj []]))
         (VRef 1%nat) (split_dot "constructor").
Proof.
  split; [reflexivity|].
  inversion 1; subst. discriminate.
Qed.

(** ** Field resolution *)

Lemma extract_value_absent h response keys :
  Forall (fun key => present h response key = false) keys ->
  extract_value h response keys = VNull.
Proof.
  intros Hall. unfold extract_value.
  replace (find (present h response) keys) with (@None string); [done|].
  symmetry. induction Hall as [|key keys Hk _ IH]; [done|].
  cbn [find]. now rewrite Hk.
Qed.

Lemma extract_value_first h response pre key post :
  Forall (fun k => present h response k = false) pre ->
  present h response key = true ->
  extract_value h response (pre ++ key :: post)
  = follow h response (split_dot key).
Proof.
  intros Hpre Hkey. unfold extract_value.
  replace (find (present h response) (pre ++ key :: post)) with (Some key);
    [done|].
  symmetry. induction Hpre as [|k pre Hk _ IH]; cbn [app find].
  - now rewrite Hkey.
  - now rewrite Hk.
Qed.

Lemma hasNestedProperty_result obj path s b :
  hasNestedProperty obj path s = Ok b s <-> present (st_heap s) obj path = b.
Proof.
  rewrite hasNestedProperty_spec. split; [now intros [= ->]|now intros ->].
Qed.

(** C2, as the code has it: when none of the candidate keys of a field is
    present, extraction answers [null]; and it answers [null] as well when
    the first present candidate is a key that holds [null], so the two cases
    give the same answer. *)
Theorem extractField_absent_is_null this response fieldName keys s :
  possibleKeys this fieldName s = Ok keys s ->
  (Forall (fun key => hasNestedProperty response key s = Ok false s) keys ->
   extractField this response fieldName s = Ok VNull s)
  /\ (forall pre key post,
        keys = pre ++ key :: post ->
        Forall (fun k => hasNestedProperty response k s = Ok false s) pre ->
        hasNestedProperty response key s = Ok true s ->
        getNestedProperty response key s = Ok VNull s ->
        extractField this response fieldName s = Ok VNull s).
Proof.
  rewrite possibleKeys_spec, extractField_spec.
  destruct (field_keys this fieldName) as [keys'|]; [|discriminate].
  intros [= ->]. split.
  - intros Hall. rewrite extract_value_absent; [done|].
    eapply Forall_impl; [exact Hall|]. intros key. apply hasNestedProperty_result.
  - intros pre key post -> Hpre Hkey Hget.
    apply hasNestedProperty_result in Hkey.
    rewrite extract_value_first; [|
      eapply Forall_impl; [exact Hpre|]; intros k; apply hasNestedProperty_result
      |done].
    rewrite getNestedProperty_guarded in Hget by done. exact Hget.
Qed.

Lemma deref_lookup (h : heap) l o : h !! l = Some o -> deref h l = o.
Proof. unfold deref. now intros ->. Qed.

Lemma present_resolves h response key b :
  present h response key = b
  <-> (if b then path_resolves has_property h response (split_dot key)
       else ~ path_resolves has_property h response (split_dot key)).
Proof.
  unfold present. destruct b; cbn iota; rewrite <- has_path_resolves; [done|].
  destruct (has_path h response (split_dot key)); split; done.
Qed.

Lemma present_own_key (h : heap) l props key :
  h !! l = Some (PlainObj props) ->
  split_dot key = [key] ->
  present h (VRef l) key
  = bool_decide (is_Some (alist_get props key))
    || inherited ObjectPrototype key.
Proof.
  intros Hl Hkey. unfold present. rewrite Hkey.
  cbn [has_path is_object truthy typeof String.eqb Ascii.eqb Bool.eqb andb
         has_property].
  rewrite (deref_lookup _ _ _ Hl). now rewrite andb_true_r.
Qed.

(** C7: resolution follows the order of the synonym table.  The answer is
    the value at the end of the first candidate, in the order of the table,
    whose path resolves in the response, whatever follows it in the table.
    For a plain object and candidates without dots that is the value of the
    first candidate that is a key of the object, the candidates before it
    being neither keys of the object nor inherited names.  For
    [{ text: "a", content: "b" }] the field [content] resolves to ["b"] when
    [content] is listed ahead of [text] and to ["a"] when the two are listed
    the other way round; and for [{ text: "a" }] it resolves to ["a"] though
    [content] is listed first. *)
Theorem extractField_honors_table_order this s :
  (forall response fieldName pre key post,
     alist_get (fieldMappings this) fieldName = Some (pre ++ key :: post) ->
     Forall (fun k => ~ path_resolves has_property (st_heap s) response
                        (split_dot k)) pre ->
     path_resolves has_property (st_heap s) response (split_dot key) ->
     extractField this response fieldName s
     = Ok (follow (st_heap s) response (split_dot key)) s)
  /\ (forall l props fieldName pre key post v,
        st_heap s !! l = Some (PlainObj props) ->
        alist_get (fieldMappings this) fieldName = Some (pre ++ key :: post) ->
        Forall (fun k => split_dot k = [k]
                         /\ alist_get props k = None
                         /\ inherited ObjectPrototype k = false) pre ->
        split_dot key = [key] ->
        alist_get props key = Some v ->
        extractField this (VRef l) fieldName s = Ok v s)
  /\ (forall response fieldName pre key post,
        possibleKeys this fieldName s = Ok (pre ++ key :: post) s ->
        Forall (fun k => hasNestedProperty response k s = Ok false s) pre ->
        hasNestedProperty response key s = Ok true s ->
        extractField this response fieldName s
        = getNestedProperty response key s)
  /\ (forall l rest,
        st_heap s !! l
          = Some (PlainObj [("text", VStr "a"); ("content", VStr "b")]) ->
        (alist_get (fieldMappings this) "content"
           = Some ("content" :: "text" :: rest) ->
         extractField this (VRef l) "content" s = Ok (VStr "b") s)
        /\ (alist_get (fieldMappings this) "content"
              = Some ("text" :: "content" :: rest) ->
            extractField this (VRef l) "content" s = Ok (VStr "a") s))
  /\ (forall l rest,
        st_heap s !! l = Some (PlainObj [("text", VStr "a")]) ->
        alist_get (fieldMappings this) "content"
          = Some ("content" :: "text" :: rest) ->
        extractField this (VRef l) "content" s = Ok (VStr "a") s).
Proof.
  assert (Hflat : forall l props fieldName pre key post v,
             st_heap s !! l = Some (PlainObj props) ->
             alist_get (fieldMappings this) fieldName
               = Some (pre ++ key :: post) ->
             Forall (fun k => split_dot k = [k]
                              /\ alist_get props k = None
                              /\ inherited ObjectPrototype k = false) pre ->
             split_dot key = [key] ->
             alist_get props key = Some v ->
             extractField this (VRef l) fieldName s = Ok v s).
  { intros l props fieldName pre key post v Hl Htable Hpre Hkey Hv.
    rewrite extractField_spec. unfold field_keys. rewrite Htable.
    rewrite extract_value_first.
    - rewrite Hkey. unfold follow. cbn [foldl get_property].
      rewrite (deref_lookup _ _ _ Hl). cbn [object_get]. now rewrite Hv.
    - eapply Forall_impl; [exact Hpre|]. intros k (Hk & Hnone & Hni).
      rewrite (present_own_key _ _ _ _ Hl Hk), Hnone, Hni.
      reflexivity.
    - rewrite (present_own_key _ _ _ _ Hl Hkey), Hv.
      reflexivity. }
  split; [|split; [exact Hflat|split; [|split]]].
  - intros response fieldName pre key post Htable Hpre Hkey.
    rewrite extractField_spec. unfold field_keys. rewrite Htable.
    rewrite extract_value_first; [done| |].
    + eapply Forall_impl; [exact Hpre|]. intros k Hk.
      now apply (present_resolves _ _ _ false).
    + now apply (present_resolves _ _ _ true).
  - intros response fieldName pre key post.
    rewrite possibleKeys_spec, extractField_spec.
    destruct (field_keys this fieldName) as [keys'|]; [|discriminate].
    intros [= ->] Hpre Hkey.
    apply hasNestedProperty_result in Hkey.
    rewrite extract_value_first; [|
      eapply Forall_impl; [exact Hpre|]; intros k; apply hasNestedProperty_result
      |done].
    now rewrite getNestedProperty_guarded.
  - intros l rest Hl. split; intros Htable.
    + now apply (Hflat l _ "content" [] "content" ("text" :: rest) _ Hl Htable).
    + now apply (Hflat l _ "content" [] "text" ("content" :: rest) _ Hl Htable).
  - intros l rest Hl Htable.
    apply (Hflat l _ "content" ["content"] "text" rest _ Hl Htable);
      [|reflexivity..].
    repeat constructor.
Qed.

(** X18: extraction away from inherited names.  For a field name that is a
    key of the synonym table itself, or that the table does not inherit from
    [Object.prototype], extraction returns a value for every response and
    leaves the store as it was; and whenever the presence test holds for a
    key, reading that key returns a value, each step of the path starting at
    a non-null object that has the next segment. *)
Theorem extractField_total this response fieldName s :
  is_Some (alist_get (fieldMappings this) fieldName)
  \/ inherited ObjectPrototype fieldName = false ->
  (exists v, extractField this response fieldName s = Ok v s)
  /\ (forall key,
        hasNestedProperty response key s = Ok true s ->
        (exists v, getNestedProperty response key s = Ok v s)
        /\ path_resolves has_property (st_heap s) response (split_dot key)).
Proof.
  intros Hname. split.
  - rewrite extractField_spec. unfold field_keys.
    destruct Hname as [[keys ->]| ->]; [eauto|].
    destruct (alist_get (fieldMappings this) fieldName); eauto.
  - intros key Hkey%hasNestedProperty_result. split.
    + rewrite getNestedProperty_guarded by done. eauto.
    + now apply has_path_resolves.
Qed.

(** ** Normalisation *)

Lemma alist_get_set_eq {A} (l : list (string * A)) k a :
  alist_get (alist_set l k a) k = Some a.
Proof.
  induction l as [|[k' a'] l IH]; cbn.
  - now rewrite String.eqb_refl.
  - destruct (String.eqb k' k) eqn:E; cbn.
    + now rewrite String.eqb_refl.
    + now rewrite E.
Qed.

Lemma alist_get_set_ne {A} (l : list (string * A)) k k' a :
  k <> k' -> alist_get (alist_set l k a) k' = alist_get l k'.
Proof.
  intros Hne. induction l as [|[k0 a0] l IH]; cbn.
  - now apply String.eqb_neq in Hne as ->.
  - destruct (String.eqb k0 k) eqn:E; cbn.
    + apply String.eqb_eq in E as ->.
      now apply String.eqb_neq in Hne as ->.
    + now rewrite IH.
Qed.

Lemma object_get_own props k v :
  alist_get props k = Some v -> object_get (PlainObj props) k = v.
Proof. cbn. now intros ->. Qed.

Section Building.

Variables (h : heap) (vprops : list (string * value)).

Lemma building_lookup_issues iss props :
  building h vprops iss props !! length h = Some (ArrayObj iss).
Proof. unfold building. now rewrite list_lookup_middle. Qed.

Lemma building_lookup_validation iss props :
  building h vprops iss props !! S (length h) = Some (PlainObj vprops).
Proof.
  unfold building. rewrite lookup_app_r by lia.
  now replace (S (length h) - length h)%nat with 1%nat by lia.
Qed.

Lemma building_lookup_response iss props :
  building h vprops iss props !! S (S (length h)) = Some (PlainObj props).
Proof.
  unfold building. rewrite lookup_app_r by lia.
  now replace (S (S (length h)) - length h)%nat with 2%nat by lia.
Qed.

Lemma building_insert_issues iss iss' props :
  <[length h := ArrayObj iss']> (building h vprops iss props)
  = building h vprops iss' props.
Proof.
  unfold building. rewrite insert_app_r_alt by lia.
  now rewrite Nat.sub_diag.
Qed.

Lemma building_insert_response iss props props' :
  <[S (S (length h)) := PlainObj props']> (building h vprops iss props)
  = building h vprops iss props'.
Proof.
  unfold building. rewrite insert_app_r_alt by lia.
  now replace (S (S (length h)) - length h)%nat with 2%nat by lia.
Qed.

End Building.

Lemma set_member_building h vprops iss props c r k v :
  set_member (S (S (length h))) k v (State (building h vprops iss props) c r)
  = if String.eqb k proto_key && negb (own_property (PlainObj props) k)
    then Beyond
    else Ok tt (State (building h vprops iss (alist_set props k v)) c r).
Proof.
  unfold set_member. cbn [st_heap st_clock st_random].
  rewrite building_lookup_response.
  destruct (String.eqb k proto_key && negb (own_property (PlainObj props) k));
    [reflexivity|].
  now rewrite building_insert_response.
Qed.

Lemma get_member_ref l k s :
  get_member (VRef l) k s = Ok (object_get (deref (st_heap s) l) k) s.
Proof. reflexivity. Qed.

Lemma push_issue_building h vprops iss props c r field :
  alist_get vprops "issues" = Some (VRef (length h)) ->
  alist_get props "_validation" = Some (VRef (S (length h))) ->
  push_issue (S (S (length h))) field (State (building h vprops iss props) c r)
  = Ok tt (State (building h vprops (iss ++ [issue_of field]) props) c r).
Proof.
  intros Hissues Hvalidation. unfold push_issue.
  erewrite bind_Ok; cycle 1.
  { rewrite get_member_ref. cbn [st_heap].
    erewrite deref_lookup by apply building_lookup_response.
    now rewrite (object_get_own _ _ _ Hvalidation). }
  erewrite bind_Ok; cycle 1.
  { rewrite get_member_ref. cbn [st_heap].
    erewrite deref_lookup by apply building_lookup_validation.
    now rewrite (object_get_own _ _ _ Hissues). }
  erewrite bind_Ok; cycle 1.
  { rewrite get_member_ref. cbn [st_heap].
    erewrite deref_lookup by apply building_lookup_issues.
    reflexivity. }
  unfold call_push. cbn [st_heap st_clock st_random].
  rewrite building_lookup_issues. cbn.
  now rewrite building_insert_issues.
Qed.

Lemma field_keys_not_inherited this field :
  inherited ObjectPrototype field = false ->
  exists keys, field_keys this field = Some keys.
Proof.
  intros Hni. unfold field_keys. rewrite Hni.
  destruct (alist_get (fieldMappings this) field); eauto.
Qed.

Section Normalisation.

Variables (this : ApiResponseValidator) (response : value).
Variables (h : heap) (vprops : list (string * value)).
Variables (c r : nat).

Hypothesis vprops_issues : alist_get vprops "issues" = Some (VRef (length h)).

Let n : loc := S (S (length h)).
Let St (iss : list value) (props : list (string * value)) : state :=
  State (building h vprops iss props) c r.

Lemma required_step_building iss props field :
  alist_get props "_validation" = Some (VRef (S (length h))) ->
  field <> "_validation" ->
  required_step this response n field (St iss props)
  = match field_keys this field with
    | None => Throw (TypeError "possibleKeys is not iterable") (St iss props)
    | Some _ =>
        if String.eqb field proto_key
           && negb (own_property (PlainObj props) field)
        then Beyond
        else let acc := required_acc this response h vprops (iss, props) field in
             Ok tt (St acc.1 acc.2)
    end.
Proof.
  intros Hvalidation Hfield.
  unfold required_step, mbind, M_bind. rewrite extractField_spec.
  unfold required_acc, field_missing, field_value. cbn [fst snd St st_heap].
  destruct (field_keys this field) as [keys|]; [|reflexivity].
  destruct (not_null (extract_value _ response keys)) eqn:Hnull; cbn [negb].
  - unfold n, St. rewrite set_member_building.
    now destruct (_ && _).
  - unfold n, St. rewrite set_member_building.
    destruct (_ && _); [done|].
    rewrite push_issue_building; [done..|].
    now rewrite alist_get_set_ne.
Qed.

Lemma required_acc_keeps acc field k :
  field <> k ->
  alist_get (required_acc this response h vprops acc field).2 k
  = alist_get acc.2 k.
Proof. intros. unfold required_acc. cbn [snd]. now apply alist_get_set_ne. Qed.

Lemma required_fold_keeps fields k : forall acc,
  k ∉ fields ->
  alist_get (foldl (required_acc this response h vprops) acc fields).2 k
  = alist_get acc.2 k.
Proof.
  induction fields as [|field fields IH]; intros acc Hk; [reflexivity|].
  apply not_elem_of_cons in Hk as [Hne Hk].
  cbn [foldl]. rewrite IH by done. now apply required_acc_keeps.
Qed.

Lemma required_loop_building fields : forall iss props,
  alist_get props "_validation" = Some (VRef (S (length h))) ->
  "_validation" ∉ fields ->
  match for_each fields (required_step this response n) (St iss props) with
  | Ok _ s' =>
      let acc := foldl (required_acc this response h vprops) (iss, props) fields in
      s' = St acc.1 acc.2
  | Throw _ s' => exists iss' props', s' = St iss' props'
  | Beyond => True
  end.
Proof.
  induction fields as [|field fields IH]; intros iss props Hvalidation Hfields.
  - reflexivity.
  - apply not_elem_of_cons in Hfields as [Hne Hfields].
    cbn [for_each foldl]. unfold mbind, M_bind.
    rewrite required_step_building by (done || now apply not_eq_sym).
    destruct (field_keys this field); [|eauto].
    destruct (_ && _); [done|]. cbn zeta.
    apply IH; [|done].
    rewrite required_acc_keeps; [done|]. now apply not_eq_sym.
Qed.

Lemma required_loop_returns fields : forall iss props,
  alist_get props "_validation" = Some (VRef (S (length h))) ->
  "_validation" ∉ fields ->
  Forall (fun field => inherited ObjectPrototype field = false) fields ->
  for_each fields (required_step this response n) (St iss props)
  = let acc := foldl (required_acc this response h vprops) (iss, props) fields in
    Ok tt (St acc.1 acc.2).
Proof.
  induction fields as [|field fields IH];
    intros iss props Hvalidation Hfields Hall; [reflexivity|].
  apply not_elem_of_cons in Hfields as [Hne Hfields].
  apply Forall_cons in Hall as [Hni Hall].
  cbn [for_each foldl]. unfold mbind, M_bind.
  rewrite required_step_building by (done || now apply not_eq_sym).
  destruct (field_keys_not_inherited this field Hni) as [keys ->].
  replace (String.eqb field proto_key) with false; cycle 1.
  { symmetry. unfold inherited in Hni.
    now apply orb_false_iff in Hni as [_ ->]. }
  cbn [andb]. cbn zeta.
  apply IH; [|done..].
  rewrite required_acc_keeps; [done|]. now apply not_eq_sym.
Qed.

Lemma optional_step_building iss props field :
  inherited ObjectPrototype field = false ->
  optional_step this response n field (St iss props)
  = Ok tt (St iss (optional_acc this response h vprops iss props field)).
Proof.
  intros Hni. unfold optional_step, optional_acc.
  erewrite bind_Ok; cycle 1.
  { rewrite get_member_ref. unfold St. cbn [st_heap].
    now erewrite deref_lookup by apply building_lookup_response. }
  destruct (truthy (object_get (PlainObj props) field)); cbn [negb];
    [reflexivity|].
  unfold mbind, M_bind. rewrite extractField_spec. unfold field_value.
  destruct (field_keys_not_inherited this field Hni) as [keys ->].
  unfold n, St. rewrite set_member_building. cbn [st_heap].
  replace (String.eqb field proto_key) with false; [reflexivity|].
  symmetry. unfold inherited in Hni.
  now apply orb_false_iff in Hni as [_ ->].
Qed.

Lemma optional_loop_building fields : forall iss props,
  Forall (fun field => inherited ObjectPrototype field = false) fields ->
  for_each fields (optional_step this response n) (St iss props)
  = Ok tt (St iss (foldl (optional_acc this response h vprops iss) props fields)).
Proof.
  induction fields as [|field fields IH]; intros iss props Hall; [reflexivity|].
  apply Forall_cons in Hall as [Hni Hall].
  cbn [for_each foldl].
  erewrite bind_Ok by (now apply optional_step_building).
  now apply IH.
Qed.

Lemma optional_acc_keeps iss props field k :
  field <> k ->
  alist_get (optional_acc this response h vprops iss props field) k
  = alist_get props k.
Proof.
  intros. unfold optional_acc.
  destruct (truthy _); [done|]. now apply alist_get_set_ne.
Qed.

Lemma optional_fold_keeps iss fields k : forall props,
  k ∉ fields ->
  alist_get (foldl (optional_acc this response h vprops iss) props fields) k
  = alist_get props k.
Proof.
  induction fields as [|field fields IH]; intros props Hk; [reflexivity|].
  apply not_elem_of_cons in Hk as [Hne Hk].
  cbn [foldl]. rewrite IH by done. now apply optional_acc_keeps.
Qed.

End Normalisation.

Lemma optionalFields_not_inherited :
  Forall (fun field => inherited ObjectPrototype field = false) optionalFields.
Proof. repeat constructor. Qed.

Lemma guard_is_object response :
  negb (truthy response) || negb (String.eqb (typeof response) "object")
  = negb (is_object response).
Proof. unfold is_object. now rewrite negb_andb. Qed.

Section Calls.

Variable rt : runtime.

Lemma createFallbackResponse_spec s :
  createFallbackResponse rt s
  = Ok (VRef (3 + length (st_heap s))%nat)
       (State
          (st_heap s ++
             [ PlainObj [("total_tokens", VNum 0)];
               ArrayObj [VStr "Complete fallback response generated"];
               PlainObj [("timestamp", VStr (timestamp_at rt (2 + st_clock s)));
                         ("issues", VRef (1 + length (st_heap s))%nat)];
               PlainObj [("content", VStr apology);
                         ("id", VStr ("fallback-"
                                      +:+ pretty (Date_now rt (st_clock s))
                                      +:+ "-"
                                      +:+ Math_random36 rt (st_random s)));
                         ("timestamp", VStr (timestamp_at rt (1 + st_clock s)));
                         ("model", VStr "fallback-model");
                         ("usage", VRef (length (st_heap s)));
                         ("error", VStr "API compatibility issue detected");
                         ("_validation", VRef (2 + length (st_heap s))%nat)] ])
          (3 + st_clock s) (1 + st_random s)).
Proof.
  destruct s as [h c r].
  unfold createFallbackResponse, generateFallbackId, new_Date_toISOString,
    date_now, math_random36, alloc, mbind, M_bind, mret, M_ret.
  cbn [st_heap st_clock st_random].
  rewrite !length_app. cbn [length]. rewrite <- !app_assoc. cbn [app].
  rewrite !Nat.add_1_r. reflexivity.
Qed.

Lemma validateAndNormalize_guard this response required s :
  is_object response = false ->
  validateAndNormalize rt this response required s = createFallbackResponse rt s.
Proof.
  intros Hobj. unfold validateAndNormalize.
  now rewrite guard_is_object, Hobj.
Qed.

Lemma validateAndNormalize_loops this response required s :
  is_object response = true ->
  let h := st_heap s in
  let n := S (S (length h)) in
  validateAndNormalize rt this response required s
  = (for_each required (required_step this response n) ;;
     for_each optionalFields (optional_step this response n) ;;
     mret (VRef n))
      (State (building h (validation_props h (timestamp_at rt (st_clock s))) []
                (initial_props h response))
             (S (st_clock s)) (st_random s)).
Proof.
  intros Hobj h n.
  unfold validateAndNormalize. rewrite guard_is_object, Hobj. cbn [negb].
  destruct s as [h0 c r]. cbn [st_heap st_clock st_random] in *.
  subst h n.
  unfold new_Date_toISOString, date_now, alloc, mbind, M_bind, mret, M_ret.
  cbn [st_heap st_clock st_random].
  rewrite !length_app. cbn [length]. rewrite <- !app_assoc. cbn [app].
  rewrite !Nat.add_1_r. reflexivity.
Qed.

Lemma validateAndNormalize_building this response required s :
  is_object response = true ->
  "_validation" ∉ required ->
  let h := st_heap s in
  let vprops := validation_props h (timestamp_at rt (st_clock s)) in
  let St iss props :=
    State (building h vprops iss props) (S (st_clock s)) (st_random s) in
  match validateAndNormalize rt this response required s with
  | Ok result s' =>
      let acc := foldl (required_acc this response h vprops)
                       ([], initial_props h response) required in
      result = VRef (S (S (length h)))
      /\ s' = St acc.1 (foldl (optional_acc this response h vprops acc.1)
                              acc.2 optionalFields)
  | Throw _ s' => exists iss props, s' = St iss props
  | Beyond => True
  end.
Proof.
  intros Hobj Hrequired h vprops St.
  rewrite validateAndNormalize_loops by done. fold h. fold vprops.
  unfold mbind, M_bind.
  pose proof (required_loop_building this response h vprops (S (st_clock s))
                (st_random s) eq_refl required [] (initial_props h response)
                eq_refl Hrequired) as Hloop.
  destruct (for_each required _ _) as [[] s1|e s1|]; [|eauto|done].
  cbn zeta in Hloop. subst s1 St. cbn beta.
  rewrite (optional_loop_building this response h vprops (S (st_clock s))
             (st_random s) optionalFields)
    by apply optionalFields_not_inherited.
  split; reflexivity.
Qed.

(** Normalisation returns a record whenever the required fields are names
    other than [_validation] that the tables do not inherit. *)
Lemma validateAndNormalize_returns this response required s :
  "_validation" ∉ required ->
  Forall (fun field => inherited ObjectPrototype field = false) required ->
  exists result s',
    validateAndNormalize rt this response required s = Ok result s'.
Proof.
  intros Hrequired Hall.
  destruct (is_object response) eqn:Hobj.
  - rewrite validateAndNormalize_loops by done. unfold mbind, M_bind.
    rewrite required_loop_returns by done. cbn zeta beta iota.
    rewrite optional_loop_building
      by (reflexivity || apply optionalFields_not_inherited).
    eauto.
  - rewrite validateAndNormalize_guard, createFallbackResponse_spec by done.
    eauto.
Qed.

End Calls.

(** ** Stores whose references are all allocated *)

Lemma alist_get_below {n} props k v :
  Forall (fun p : string * value => value_below n p.2) props ->
  alist_get props k = Some v -> value_below n v.
Proof.
  induction 1 as [|[k' v'] props Hv _ IH]; cbn; [discriminate|].
  destruct (String.eqb k' k); [now intros [= <-]|exact IH].
Qed.

Lemma inherited_get_below n self b k :
  value_below n self -> value_below n (inherited_get self b k).
Proof.
  intros Hself. unfold inherited_get.
  destruct (String.eqb k proto_key); [done|].
  destruct b; repeat case_match; exact I.
Qed.

Lemma object_get_below n o k :
  object_below n o -> value_below n (object_get o k).
Proof.
  destruct o as [props|elems]; cbn [object_below object_get]; intros Hall.
  - destruct (alist_get props k) eqn:Hk.
    + eapply alist_get_below; eauto.
    + now apply inherited_get_below.
  - destruct (String.eqb k "length"); [exact I|].
    destruct (index_of_key (length elems) k) as [i|].
    + destruct (elems !! i) as [v|] eqn:Hi; [|exact I].
      cbn. eapply Forall_lookup_1; eauto.
    + now apply inherited_get_below.
Qed.

Section Closed.

Variables (h ext : heap).
Hypothesis h_closed : closed_heap h.

Lemma deref_app l : (l < length h)%nat -> deref (h ++ ext) l = deref h l.
Proof. intros. unfold deref. now rewrite lookup_app_l. Qed.

Lemma get_property_below v k :
  value_below (length h) v -> value_below (length h) (get_property h v k).
Proof.
  destruct v as [| | | | | |b|l]; try (intros; exact I).
  - intros _. destruct b; cbn; unfold inherited_get; repeat case_match; exact I.
  - cbn [value_below get_property]. intros Hl.
    apply object_get_below. unfold deref.
    destruct (h !! l) as [o|] eqn:Ho; cbn.
    + eapply Forall_lookup_1; eauto.
    + constructor.
Qed.

Lemma get_property_app v k :
  value_below (length h) v -> get_property (h ++ ext) v k = get_property h v k.
Proof.
  destruct v; try reflexivity. cbn [value_below get_property].
  intros. now rewrite deref_app.
Qed.

Lemma has_property_app v k :
  value_below (length h) v -> has_property (h ++ ext) v k = has_property h v k.
Proof.
  destruct v; try reflexivity. cbn [value_below has_property].
  intros. now rewrite deref_app.
Qed.

Lemma has_path_app keys : forall v,
  value_below (length h) v -> has_path (h ++ ext) v keys = has_path h v keys.
Proof.
  induction keys as [|key keys IH]; intros v Hv; [reflexivity|].
  cbn [has_path]. rewrite has_property_app, get_property_app by done.
  rewrite IH; [done|]. now apply get_property_below.
Qed.

Lemma follow_app keys : forall v,
  value_below (length h) v -> follow (h ++ ext) v keys = follow h v keys.
Proof.
  unfold follow.
  induction keys as [|key keys IH]; intros v Hv; [reflexivity|].
  cbn [foldl]. rewrite get_property_app by done.
  apply IH. now apply get_property_below.
Qed.

Lemma extract_value_app response keys :
  value_below (length h) response ->
  extract_value (h ++ ext) response keys = extract_value h response keys.
Proof.
  intros Hv. unfold extract_value.
  replace (find (present (h ++ ext) response) keys)
    with (find (present h response) keys).
  - destruct (find _ keys); [|done]. now apply follow_app.
  - induction keys as [|key keys IH]; [done|]. cbn [find].
    unfold present at 1 3. rewrite has_path_app by done.
    now rewrite IH.
Qed.

End Closed.

Section RequiredFold.

Variables (this : ApiResponseValidator) (response : value).
Variables (h : heap) (vprops : list (string * value)).
Hypothesis h_closed : closed_heap h.
Hypothesis response_below : value_below (length h) response.

Lemma field_missing_building iss props field :
  field_missing this (building h vprops iss props) response field
  = field_missing this h response field.
Proof.
  unfold field_missing, building.
  destruct (field_keys this field); [|done].
  now rewrite extract_value_app.
Qed.

Lemma field_value_building iss props field :
  field_value this (building h vprops iss props) response field
  = field_value this h response field.
Proof.
  unfold field_value, building.
  destruct (field_keys this field); [|done].
  now rewrite extract_value_app.
Qed.

Lemma required_fold_issues fields : forall acc,
  (foldl (required_acc this response h vprops) acc fields).1
  = acc.1 ++ map issue_of (filter (fun f => field_missing this h response f = true) fields).
Proof.
  induction fields as [|field fields IH]; intros acc.
  - cbn. now rewrite app_nil_r.
  - cbn [foldl]. rewrite IH. unfold required_acc. cbn [fst].
    rewrite field_missing_building, filter_cons.
    destruct (field_missing this h response field) eqn:Hm.
    + rewrite decide_True by done. cbn [map]. now rewrite <- app_assoc.
    + rewrite decide_False by (rewrite ?Hm; done). done.
Qed.

Lemma required_fold_props fields k : forall acc,
  alist_get (foldl (required_acc this response h vprops) acc fields).2 k
  = if decide (k ∈ fields) then Some (field_value this h response k)
    else alist_get acc.2 k.
Proof.
  induction fields as [|field fields IH]; intros acc.
  - cbn. now rewrite decide_False by apply not_elem_of_nil.
  - cbn [foldl]. rewrite IH.
    destruct (decide (k ∈ fields)) as [Hin|Hnin].
    + rewrite decide_True; [done|]. now apply elem_of_cons; right.
    + unfold required_acc. cbn [snd]. rewrite field_value_building.
      destruct (decide (field = k)) as [->|Hne].
      * rewrite alist_get_set_eq, decide_True; [done|]. apply elem_of_cons; auto.
      * rewrite alist_get_set_ne by done.
        rewrite decide_False; [done|].
        intros [?|?]%elem_of_cons; congruence.
Qed.

End RequiredFold.

(** ** What a call leaves behind *)

Lemma get_property_building_response h vprops iss props k :
  get_property (building h vprops iss props) (VRef (S (S (length h)))) k
  = object_get (PlainObj props) k.
Proof.
  cbn [get_property].
  now erewrite deref_lookup by apply building_lookup_response.
Qed.

Lemma get_property_building_validation h vprops iss props k :
  get_property (building h vprops iss props) (VRef (S (length h))) k
  = object_get (PlainObj vprops) k.
Proof.
  cbn [get_property].
  now erewrite deref_lookup by apply building_lookup_validation.
Qed.

Lemma building_keeps h vprops iss props l obj :
  h !! l = Some obj -> building h vprops iss props !! l = Some obj.
Proof. intros. unfold building. now apply lookup_app_l_Some. Qed.

Lemma optionalFields_not_validation : "_validation" ∉ optionalFields.
Proof. unfold optionalFields. rewrite !not_elem_of_cons. repeat split; try discriminate. apply not_elem_of_nil. Qed.

Lemma optionalFields_not_original : "_original" ∉ optionalFields.
Proof. unfold optionalFields. rewrite !not_elem_of_cons. repeat split; try discriminate. apply not_elem_of_nil. Qed.

Section Results.

Variable rt : runtime.

Lemma validateAndNormalize_keeps_store this response required s s' :
  "_validation" ∉ required ->
  final_state (validateAndNormalize rt this response required s) = Some s' ->
  forall l obj, st_heap s !! l = Some obj -> st_heap s' !! l = Some obj.
Proof.
  intros Hrequired Hfinal l obj Hl.
  destruct (is_object response) eqn:Hobj.
  - pose proof (validateAndNormalize_building rt this response required s
                  Hobj Hrequired) as Hcall.
    cbn zeta in Hcall.
    destruct (validateAndNormalize rt this response required s)
      as [result s1|e s1|]; [| |discriminate];
      injection Hfinal as ->.
    + destruct Hcall as [_ ->]. now apply building_keeps.
    + destruct Hcall as (iss & props & ->). now apply building_keeps.
  - rewrite validateAndNormalize_guard, createFallbackResponse_spec in Hfinal
      by done.
    injection Hfinal as <-. cbn [st_heap]. now apply lookup_app_l_Some.
Qed.

(** The shape of a normalised response and of the store it lives in. *)
Lemma validateAndNormalize_result this response required s result s' :
  is_object response = true ->
  "_validation" ∉ required ->
  validateAndNormalize rt this response required s = Ok result s' ->
  let h := st_heap s in
  let vprops := validation_props h (timestamp_at rt (st_clock s)) in
  let acc := foldl (required_acc this response h vprops)
                   ([], initial_props h response) required in
  let props := foldl (optional_acc this response h vprops acc.1)
                     acc.2 optionalFields in
  result = VRef (S (S (length h)))
  /\ st_heap s' = building h vprops acc.1 props
  /\ alist_get props "_validation" = Some (VRef (S (length h)))
  /\ ("_original" ∉ required -> alist_get props "_original" = Some response).
Proof.
  intros Hobj Hrequired Hcall.
  pose proof (validateAndNormalize_building rt this response required s
                Hobj Hrequired) as Hspec.
  rewrite Hcall in Hspec. cbn zeta in *. destruct Hspec as [-> ->].
  split; [done|]. split; [done|]. split.
  - rewrite optional_fold_keeps by apply optionalFields_not_validation.
    now rewrite required_fold_keeps.
  - intros Horiginal.
    rewrite optional_fold_keeps by apply optionalFields_not_original.
    now rewrite required_fold_keeps.
Qed.

Lemma validateAndNormalize_issues this response required s result s' :
  is_object response = true ->
  "_validation" ∉ required ->
  validateAndNormalize rt this response required s = Ok result s' ->
  let h := st_heap s in
  let vprops := validation_props h (timestamp_at rt (st_clock s)) in
  issues_of (st_heap s') result
  = Some (foldl (required_acc this response h vprops)
                ([], initial_props h response) required).1.
Proof.
  intros Hobj Hrequired Hcall.
  destruct (validateAndNormalize_result _ _ _ _ _ _ Hobj Hrequired Hcall)
    as (-> & -> & Hvalidation & _).
  cbn zeta. unfold issues_of.
  rewrite get_property_building_response.
  rewrite (object_get_own _ _ _ Hvalidation).
  rewrite get_property_building_validation. cbn [validation_props object_get alist_get String.eqb Ascii.eqb Bool.eqb].
  cbn.
  now rewrite building_lookup_issues.
Qed.

End Results.

Lemma field_missing_extractField this response field s :
  field_missing this (st_heap s) response field = true
  <-> extractField this response field s = Ok VNull s.
Proof.
  rewrite extractField_spec. unfold field_missing.
  destruct (field_keys this field) as [keys|]; [|split; discriminate].
  destruct (extract_value (st_heap s) response keys); cbn; split;
    (discriminate || reflexivity || congruence).
Qed.

Section Claims.

Variable rt : runtime.

(** X17: what resolution leaves alone.  Field extraction ends in the store
    it started in, for every response and field name; and normalisation,
    whenever no required field is named [_validation], leaves every object
    that was in the store before the call exactly as it was, whether it
    returns or throws. *)
Theorem resolution_keeps_the_raw_input this response s :
  (forall fieldName,
     final_state (extractField this response fieldName s) = Some s)
  /\ (forall required s',
        "_validation" ∉ required ->
        final_state (validateAndNormalize rt this response required s)
          = Some s' ->
        forall l obj, st_heap s !! l = Some obj -> st_heap s' !! l = Some obj).
Proof.
  split.
  - intros fieldName. rewrite extractField_spec.
    now destruct (field_keys this fieldName).
  - intros required s'. apply validateAndNormalize_keeps_store.
Qed.

(** C4, as the code has it: the fallback record returned for an input that
    is not a non-null object has no [_original] property, and its
    [_validation.timestamp] is the third reading of the clock taken by the
    call; a record normalised from a non-null object, when neither
    [_original] nor [_validation] is among the required fields, holds the
    very input in [_original], leaves the objects of the input as they were,
    and its [_validation.timestamp] is the reading of the clock taken when
    the call starts. *)
Theorem normalized_response_diagnostics this response required s :
  (is_object response = false ->
   exists result s',
     validateAndNormalize rt this response required s = Ok result s'
     /\ has_property (st_heap s') result "_original" = false
     /\ get_property (st_heap s')
          (get_property (st_heap s') result "_validation") "timestamp"
        = VStr (timestamp_at rt (2 + st_clock s)))
  /\ (is_object response = true ->
      "_original" ∉ required ->
      "_validation" ∉ required ->
      forall result s',
        validateAndNormalize rt this response required s = Ok result s' ->
        get_property (st_heap s') result "_original" = response
        /\ get_property (st_heap s')
             (get_property (st_heap s') result "_validation") "timestamp"
           = VStr (timestamp_at rt (st_clock s))
        /\ (forall l obj,
              st_heap s !! l = Some obj -> st_heap s' !! l = Some obj)).
Proof.
  split.
  - intros Hobj. rewrite validateAndNormalize_guard by done.
    rewrite createFallbackResponse_spec. do 2 eexists. split; [reflexivity|].
    cbn [st_heap has_property get_property].
    erewrite !deref_lookup; cycle 1.
    { rewrite lookup_app_r by lia.
      replace (3 + length (st_heap s) - length (st_heap s))%nat with 3%nat by lia.
      reflexivity. }
    cbn. erewrite deref_lookup; cycle 1.
    { rewrite lookup_app_r by lia.
      replace (S (S (length (st_heap s))) - length (st_heap s))%nat with 2%nat by lia.
      reflexivity. }
    split; reflexivity.
  - intros Hobj Horiginal Hvalidation result s' Hcall.
    destruct (validateAndNormalize_result rt _ _ _ _ _ _ Hobj Hvalidation Hcall)
      as (-> & Hheap & Hv & Ho).
    rewrite Hheap. rewrite !get_property_building_response.
    rewrite (object_get_own _ _ _ Hv), (object_get_own _ _ _ (Ho Horiginal)).
    rewrite get_property_building_validation.
    split; [done|]. split; [reflexivity|].
    intros l obj Hl. now apply building_keeps.
Qed.

(** C3, as the code has it: for a non-null object in a store all of whose
    references are allocated, and a list of required fields that does not
    name [_validation], the issues list of a normalised response is not
    empty exactly when extraction answers [null] for at least one of the
    required fields.  Optional fields that receive their default record no
    issue. *)
Theorem issues_iff_required_field_missing this response required s result s' :
  is_object response = true ->
  closed_heap (st_heap s) ->
  value_below (length (st_heap s)) response ->
  "_validation" ∉ required ->
  validateAndNormalize rt this response required s = Ok result s' ->
  exists issues,
    issues_of (st_heap s') result = Some issues
    /\ ((0 < length issues)%nat
        <-> exists field, field ∈ required
              /\ extractField this response field s = Ok VNull s).
Proof.
  intros Hobj Hclosed Hbelow Hrequired Hcall.
  eexists. split.
  { eapply validateAndNormalize_issues; eauto. }
  cbn zeta. rewrite required_fold_issues by done. cbn [fst app].
  rewrite length_map. split.
  - intros Hlen.
    destruct (filter _ required) as [|field rest] eqn:Hfilter;
      [cbn in Hlen; lia|].
    assert (Hin : field ∈ filter
              (fun f => field_missing this (st_heap s) response f = true)
              required) by (rewrite Hfilter; left).
    apply list_elem_of_filter in Hin as [Hmissing Hin].
    exists field. split; [done|]. now apply field_missing_extractField.
  - intros (field & Hin & Hnull).
    apply field_missing_extractField in Hnull.
    assert (Hf : field ∈ filter
              (fun f => field_missing this (st_heap s) response f = true)
              required) by (apply list_elem_of_filter; done).
    destruct (filter _ required); [now apply not_elem_of_nil in Hf|].
    cbn. lia.
Qed.

End Claims.

Lemma field_value_missing this h response field :
  field_missing this h response field = true ->
  field_value this h response field = default_of this field.
Proof.
  unfold field_missing, field_value.
  destruct (field_keys this field); [|discriminate].
  now destruct (not_null _).
Qed.

(** ** The store during a normalisation, whatever the required fields *)

Lemma lookup_after (h ext : heap) k :
  (h ++ ext) !! (k + length h)%nat = ext !! k.
Proof.
  rewrite lookup_app_r by lia. f_equal. lia.
Qed.

Lemma deref_after (h ext : heap) k o :
  ext !! k = Some o -> deref (h ++ ext) (k + length h) = o.
Proof. intros Hk. apply deref_lookup. now rewrite lookup_after. Qed.

Lemma get_member_state v k s a s' : get_member v k s = Ok a s' -> s' = s.
Proof.
  destruct v; unfold get_member, throw, read, beyond, mret, M_ret; intros H;
    repeat case_match; now simplify_eq.
Qed.

Lemma array_blind_has k elems :
  array_blind k = true -> object_has (ArrayObj elems) k = false.
Proof.
  unfold array_blind. rewrite !andb_true_iff, !negb_true_iff.
  intros [[Hlength Hindex] Hinherited].
  unfold object_has, own_property, index_of_key. cbn [class_proto].
  rewrite Hlength, Hinherited.
  apply bool_decide_eq_false in Hindex.
  destruct (array_index k) as [i|]; [exfalso; apply Hindex; eauto|].
  rewrite bool_decide_eq_false_2; [reflexivity|]. now intros [? ?].
Qed.

Lemma same_object_refl l h : same_object l h h.
Proof. unfold same_object. destruct (h !! l) as [[|]|]; eauto. Qed.

Lemma same_object_trans l h1 h2 h3 :
  same_object l h1 h2 -> same_object l h2 h3 -> same_object l h1 h3.
Proof.
  unfold same_object. destruct (h1 !! l) as [[props|elems]|].
  - now intros ->.
  - now intros [elems' ->].
  - now intros ->.
Qed.

Lemma store_evolves_refl nr h : store_evolves nr h h.
Proof. intros l _. apply same_object_refl. Qed.

Lemma store_evolves_trans nr h1 h2 h3 :
  store_evolves nr h1 h2 -> store_evolves nr h2 h3 -> store_evolves nr h1 h3.
Proof. intros H12 H23 l Hl. eapply same_object_trans; eauto. Qed.

Lemma store_evolves_record nr (h : heap) o :
  store_evolves nr h (<[nr := o]> h).
Proof.
  intros l Hl. unfold same_object.
  rewrite list_lookup_insert_ne by done.
  destruct (h !! l) as [[|]|]; eauto.
Qed.

Lemma store_evolves_array nr (h : heap) l elems elems' :
  h !! l = Some (ArrayObj elems) ->
  store_evolves nr h (<[l := ArrayObj elems']> h).
Proof.
  intros Harray l0 _. destruct (decide (l0 = l)) as [->|Hne].
  - unfold same_object. rewrite Harray.
    rewrite list_lookup_insert_eq by (eapply lookup_lt_Some; eauto). eauto.
  - unfold same_object. rewrite list_lookup_insert_ne by done.
    destruct (h !! l0) as [[|]|]; eauto.
Qed.

Lemma set_member_Ok l k v s u s' :
  set_member l k v s = Ok u s' ->
  exists props,
    st_heap s !! l = Some (PlainObj props)
    /\ st_heap s' = <[l := PlainObj (alist_set props k v)]> (st_heap s).
Proof.
  unfold set_member. intros H.
  destruct (st_heap s !! l) as [[props|]|]; try discriminate.
  destruct (_ && _); [discriminate|]. injection H as _ <-. eauto.
Qed.

Lemma call_push_Ok recv f x s u s' :
  call_push recv f x s = Ok u s' ->
  exists l elems,
    st_heap s !! l = Some (ArrayObj elems)
    /\ st_heap s' = <[l := ArrayObj (elems ++ [x])]> (st_heap s).
Proof.
  unfold call_push, throw. intros H. repeat case_match; simplify_eq. eauto.
Qed.

Lemma push_issue_Ok nr field s u s' :
  push_issue nr field s = Ok u s' ->
  exists l elems x,
    st_heap s !! l = Some (ArrayObj elems)
    /\ st_heap s' = <[l := ArrayObj (elems ++ [x])]> (st_heap s).
Proof.
  unfold push_issue, mbind, M_bind. intros H.
  destruct (get_member (VRef nr) "_validation" s) as [v s1|? ?|] eqn:H1;
    [|discriminate..].
  apply get_member_state in H1 as ->.
  destruct (get_member v "issues" s) as [i s1|? ?|] eqn:H2; [|discriminate..].
  apply get_member_state in H2 as ->.
  destruct (get_member i "push" s) as [f s1|? ?|] eqn:H3; [|discriminate..].
  apply get_member_state in H3 as ->.
  apply call_push_Ok in H as (l & elems & Harray & Hheap). eauto.
Qed.

Lemma required_step_Ok this response nr field s u s' props :
  required_step this response nr field s = Ok u s' ->
  st_heap s !! nr = Some (PlainObj props) ->
  exists v,
    extractField this response field s = Ok v s
    /\ st_heap s' !! nr
       = Some (PlainObj (alist_set props field
                           (if not_null v then v else default_of this field)))
    /\ store_evolves nr (st_heap s) (st_heap s').
Proof.
  unfold required_step, mbind, M_bind. intros H Hnr.
  destruct (extractField this response field s) as [v s1|? ?|] eqn:Hv;
    [|discriminate..].
  assert (s1 = s) as ->.
  { rewrite extractField_spec in Hv. destruct (field_keys this field);
      [now injection Hv|discriminate]. }
  exists v. split; [done|].
  assert (Hlt : (nr < length (st_heap s))%nat) by (eapply lookup_lt_Some; eauto).
  destruct (not_null v).
  - apply set_member_Ok in H as (props' & Hl & ->).
    rewrite Hnr in Hl. injection Hl as <-.
    split; [now apply list_lookup_insert_eq|apply store_evolves_record].
  - destruct (set_member nr field (default_of this field) s)
      as [u1 s1|? ?|] eqn:Hset; [|discriminate..].
    apply set_member_Ok in Hset as (props' & Hl & Hs1).
    rewrite Hnr in Hl. injection Hl as <-.
    apply push_issue_Ok in H as (l & elems & x & Harray & ->).
    assert (Hne : l <> nr).
    { intros ->. rewrite Hs1, list_lookup_insert_eq in Harray by done.
      discriminate. }
    split.
    + rewrite list_lookup_insert_ne by done. rewrite Hs1.
      now apply list_lookup_insert_eq.
    + eapply store_evolves_trans; [|eapply store_evolves_array; exact Harray].
      rewrite Hs1. apply store_evolves_record.
Qed.

Lemma optional_step_Ok this response nr field s u s' props :
  optional_step this response nr field s = Ok u s' ->
  st_heap s !! nr = Some (PlainObj props) ->
  exists props',
    st_heap s' !! nr = Some (PlainObj props')
    /\ store_evolves nr (st_heap s) (st_heap s')
    /\ (truthy (object_get (PlainObj props) field) = true /\ props' = props
        \/ truthy (object_get (PlainObj props) field) = false
           /\ exists v,
                extractField this response field s = Ok v s
                /\ props' = alist_set props field
                              (if not_null v then v
                               else default_of this field)).
Proof.
  unfold optional_step. intros H Hnr.
  erewrite bind_Ok in H; cycle 1.
  { rewrite get_member_ref. now erewrite deref_lookup by exact Hnr. }
  destruct (truthy (object_get (PlainObj props) field)) eqn:Htruthy;
    cbn [negb] in H.
  - injection H as _ <-. exists props.
    split; [done|]. split; [apply store_evolves_refl|]. now left.
  - unfold mbind, M_bind in H.
    destruct (extractField this response field s) as [v s1|? ?|] eqn:Hv;
      [|discriminate..].
    assert (s1 = s) as ->.
    { rewrite extractField_spec in Hv. destruct (field_keys this field);
        [now injection Hv|discriminate]. }
    apply set_member_Ok in H as (props' & Hl & ->).
    rewrite Hnr in Hl. injection Hl as <-.
    eexists. split.
    { apply list_lookup_insert_eq. eapply lookup_lt_Some; eauto. }
    split; [apply store_evolves_record|]. right. eauto.
Qed.

Lemma extract_flat_agree (h H : heap) l keys :
  Forall (fun k => split_dot k = [k] /\ array_blind k = true) keys ->
  same_object l h H ->
  extract_value H (VRef l) keys = extract_value h (VRef l) keys.
Proof.
  intros Hkeys Hsame. unfold extract_value.
  induction Hkeys as [|k keys [Hk Hblind] _ IH]; [done|].
  cbn [find].
  assert (Hagree : present H (VRef l) k = present h (VRef l) k
                   /\ (present h (VRef l) k = true ->
                       follow H (VRef l) (split_dot k)
                       = follow h (VRef l) (split_dot k))).
  { unfold present, follow. rewrite Hk.
    cbn [has_path foldl is_object truthy typeof String.eqb Ascii.eqb Bool.eqb
           andb has_property get_property].
    unfold same_object in Hsame.
    destruct (h !! l) as [[props|elems]|] eqn:Hl.
    - now rewrite (deref_lookup _ _ _ Hl), (deref_lookup _ _ _ Hsame).
    - destruct Hsame as [elems' Hsame].
      rewrite (deref_lookup _ _ _ Hl), (deref_lookup _ _ _ Hsame).
      rewrite !array_blind_has by done. split; [done|discriminate].
    - unfold deref. now rewrite Hl, Hsame. }
  destruct Hagree as [-> Hvalue].
  destruct (present h (VRef l) k) eqn:Hpresent; [now apply Hvalue|exact IH].
Qed.

Lemma extract_flat_builtin (h H : heap) b keys :
  Forall (fun k => split_dot k = [k] /\ array_blind k = true) keys ->
  extract_value H (VBuiltin b) keys = extract_value h (VBuiltin b) keys.
Proof.
  intros Hkeys. unfold extract_value.
  induction Hkeys as [|k keys [Hk _] _ IH]; [done|].
  cbn [find].
  assert (Hagree : present H (VBuiltin b) k = present h (VBuiltin b) k
                   /\ follow H (VBuiltin b) (split_dot k)
                      = follow h (VBuiltin b) (split_dot k)).
  { unfold present, follow. rewrite Hk. cbn [has_path foldl].
    split; now destruct b. }
  destruct Hagree as [-> Hvalue].
  destruct (present h (VBuiltin b) k); [exact Hvalue|exact IH].
Qed.

Section IdentifierLoops.

Variables (this : ApiResponseValidator) (response : value) (nr : loc).
Variables (h0 : heap) (V : value).
Hypothesis id_stable :
  forall (H : heap) v s,
    store_evolves nr h0 H ->
    st_heap s = H ->
    extractField this response "id" s = Ok v s ->
    (if not_null v then v else default_of this "id") = V.

Lemma required_loop_id fields : forall s u s' props,
  for_each fields (required_step this response nr) s = Ok u s' ->
  st_heap s !! nr = Some (PlainObj props) ->
  store_evolves nr h0 (st_heap s) ->
  alist_get props "id" = None \/ alist_get props "id" = Some V ->
  exists props',
    st_heap s' !! nr = Some (PlainObj props')
    /\ store_evolves nr h0 (st_heap s')
    /\ (alist_get props' "id" = None \/ alist_get props' "id" = Some V).
Proof.
  induction fields as [|field fields IH]; intros s u s' props Hrun Hnr Hev Hid.
  - injection Hrun as _ <-. eauto.
  - cbn [for_each] in Hrun. unfold mbind, M_bind in Hrun.
    destruct (required_step this response nr field s) as [u1 s1|? ?|] eqn:Hstep;
      [|discriminate..].
    destruct (required_step_Ok _ _ _ _ _ _ _ _ Hstep Hnr)
      as (v & Hv & Hnr1 & Hev1).
    eapply IH; [exact Hrun|exact Hnr1| |].
    + eapply store_evolves_trans; eauto.
    + destruct (decide (field = "id")) as [->|Hne].
      * right. rewrite alist_get_set_eq. f_equal.
        now apply (id_stable (st_heap s) v s).
      * now rewrite alist_get_set_ne.
Qed.

Lemma optional_loop_keeps_id fields : forall s u s' props,
  "id" ∉ fields ->
  for_each fields (optional_step this response nr) s = Ok u s' ->
  st_heap s !! nr = Some (PlainObj props) ->
  alist_get props "id" = Some V ->
  exists props',
    st_heap s' !! nr = Some (PlainObj props')
    /\ alist_get props' "id" = Some V.
Proof.
  induction fields as [|field fields IH]; intros s u s' props Hni Hrun Hnr Hid.
  - injection Hrun as _ <-. eauto.
  - apply not_elem_of_cons in Hni as [Hne Hni].
    cbn [for_each] in Hrun. unfold mbind, M_bind in Hrun.
    destruct (optional_step this response nr field s) as [u1 s1|? ?|] eqn:Hstep;
      [|discriminate..].
    destruct (optional_step_Ok _ _ _ _ _ _ _ _ Hstep Hnr)
      as (props1 & Hnr1 & _ & Hprops).
    eapply IH; [exact Hni|exact Hrun|exact Hnr1|].
    destruct Hprops as [[_ ->]|(_ & v & _ & ->)]; [done|].
    rewrite alist_get_set_ne; [done|]. now apply not_eq_sym.
Qed.

Lemma optional_step_sets_id s u s' props :
  optional_step this response nr "id" s = Ok u s' ->
  st_heap s !! nr = Some (PlainObj props) ->
  store_evolves nr h0 (st_heap s) ->
  alist_get props "id" = None \/ alist_get props "id" = Some V ->
  exists props',
    st_heap s' !! nr = Some (PlainObj props')
    /\ alist_get props' "id" = Some V.
Proof.
  intros Hstep Hnr Hev Hid.
  destruct (optional_step_Ok _ _ _ _ _ _ _ _ Hstep Hnr)
    as (props1 & Hnr1 & _ & Hprops).
  exists props1. split; [done|].
  destruct Hprops as [[Htruthy ->]|(_ & v & Hv & ->)].
  - destruct Hid as [Hid|Hid]; [|done].
    cbn [object_get] in Htruthy. rewrite Hid in Htruthy. discriminate.
  - rewrite alist_get_set_eq. f_equal. now apply (id_stable (st_heap s) v s).
Qed.

End IdentifierLoops.

Lemma for_each_cons {A} (x : A) l (body : A -> M unit) s :
  for_each (x :: l) body s
  = match body x s with
    | Ok _ s' => for_each l body s'
    | Throw e s' => Throw e s'
    | Beyond => Beyond
    end.
Proof. reflexivity. Qed.

Section Identifier.

Variable rt : runtime.

(** The [id] of a normalised record, for every list of required fields,
    when the candidates of [id] are top-level keys that no array has. *)
Lemma validateAndNormalize_id_value this response required s result s' keys :
  is_object response = true ->
  value_below (length (st_heap s)) response ->
  field_keys this "id" = Some keys ->
  Forall (fun k => split_dot k = [k] /\ array_blind k = true) keys ->
  validateAndNormalize rt this response required s = Ok result s' ->
  get_property (st_heap s') result "id"
  = field_value this (st_heap s) response "id".
Proof.
  intros Hobj Hbelow Hkeys Hflat Hcall.
  rewrite validateAndNormalize_loops in Hcall by done. cbn zeta in Hcall.
  set (h := st_heap s) in *.
  set (vprops := validation_props h (timestamp_at rt (st_clock s))) in *.
  set (nr := S (S (length h))) in *.
  set (H0 := building h vprops [] (initial_props h response)) in *.
  assert (Hstable : forall (H : heap) v s0,
             store_evolves nr H0 H ->
             st_heap s0 = H ->
             extractField this response "id" s0 = Ok v s0 ->
             (if not_null v then v else default_of this "id")
             = field_value this h response "id").
  { intros H v s0 Hev <- Hv. rewrite extractField_spec, Hkeys in Hv.
    injection Hv as <-. unfold field_value. rewrite Hkeys. cbn zeta.
    replace (extract_value (st_heap s0) response keys)
      with (extract_value h response keys); [done|].
    symmetry. destruct (is_object_cases _ Hobj) as [[l ->]|[b ->]].
    - apply extract_flat_agree; [done|]. cbn [value_below] in Hbelow.
      assert (Hne : l <> nr) by (unfold nr; lia).
      eapply same_object_trans; [|now apply Hev].
      unfold same_object, H0, building. rewrite lookup_app_l by done.
      destruct (h !! l) as [[|]|]; eauto.
    - now apply extract_flat_builtin. }
  unfold mbind, M_bind in Hcall.
  destruct (for_each required _ _) as [u1 s1|? ?|] eqn:Hrequired;
    [|discriminate..].
  destruct (for_each optionalFields _ s1) as [u2 s2|? ?|] eqn:Hoptional;
    [|discriminate..].
  injection Hcall as <- <-.
  edestruct (required_loop_id this response nr H0 _ Hstable required)
    as (props1 & Hnr1 & Hev1 & Hid1);
    [exact Hrequired|apply building_lookup_response|apply store_evolves_refl
    |now left|].
  unfold optionalFields in Hoptional. rewrite for_each_cons in Hoptional.
  destruct (optional_step this response nr "id" s1) as [u3 s3|? ?|] eqn:Hstep;
    [|discriminate..].
  destruct (optional_step_sets_id this response nr H0 _ Hstable _ _ _ _
              Hstep Hnr1 Hev1 Hid1) as (props3 & Hnr3 & Hid3).
  edestruct (optional_loop_keeps_id this response nr)
    as (props' & Hnr' & Hid');
    [|exact Hoptional|exact Hnr3|exact Hid3|]; [not_in_list|].
  cbn [get_property]. rewrite (deref_lookup _ _ _ Hnr').
  now apply object_get_own.
Qed.

Lemma reference_id_keys this :
  fieldMappings this = reference_fieldMappings ->
  field_keys this "id" = Some ["id"; "messageId"; "requestId"; "uuid"]
  /\ Forall (fun k => split_dot k = [k] /\ array_blind k = true)
            ["id"; "messageId"; "requestId"; "uuid"].
Proof.
  intros Htable. split.
  - unfold field_keys. now rewrite Htable.
  - repeat constructor.
Qed.

(** C5, as the code has it: the default for [id] is generated once, when the
    validator is constructed.  The constructor stores the identifier that
    [generateFallbackId] gives at that moment in the table of defaults.
    Every later normalisation of a non-null object of the store by that
    validator, whatever the required fields and the time, gives the record
    the [id] extracted from the response or, when extraction answers
    [null], that stored identifier; so two normalisations that both fall
    back to the default receive the same identifier.  Only for an input
    that is not a non-null object does the record carry a new identifier:
    the one [generateFallbackId] gives at the time of that call, through
    [createFallbackResponse]. *)
Theorem id_default_is_fixed_at_construction s0 :
  exists this id0 s1,
    new_ApiResponseValidator rt s0 = Ok this s1
    /\ generateFallbackId rt s0
       = Ok id0 (State (st_heap s0) (S (st_clock s0)) (S (st_random s0)))
    /\ default_of this "id" = VStr id0
    /\ (forall response required s result s',
          is_object response = true ->
          value_below (length (st_heap s)) response ->
          validateAndNormalize rt this response required s = Ok result s' ->
          exists v,
            extractField this response "id" s = Ok v s
            /\ get_property (st_heap s') result "id"
               = if not_null v then v else VStr id0)
    /\ (forall response1 required1 sa result1 sa'
               response2 required2 sb result2 sb',
          is_object response1 = true ->
          value_below (length (st_heap sa)) response1 ->
          extractField this response1 "id" sa = Ok VNull sa ->
          validateAndNormalize rt this response1 required1 sa
          = Ok result1 sa' ->
          is_object response2 = true ->
          value_below (length (st_heap sb)) response2 ->
          extractField this response2 "id" sb = Ok VNull sb ->
          validateAndNormalize rt this response2 required2 sb
          = Ok result2 sb' ->
          get_property (st_heap sa') result1 "id" = VStr id0
          /\ get_property (st_heap sb') result2 "id" = VStr id0)
    /\ (forall response required s,
          is_object response = false ->
          exists id result s',
            generateFallbackId rt s
            = Ok id (State (st_heap s) (S (st_clock s)) (S (st_random s)))
            /\ createFallbackResponse rt s = Ok result s'
            /\ validateAndNormalize rt this response required s = Ok result s'
            /\ get_property (st_heap s') result "id" = VStr id).
Proof.
  do 3 eexists. split; [reflexivity|]. split; [reflexivity|].
  split; [reflexivity|].
  match goal with
  | |- (forall response required s result s', _ -> _ ->
          validateAndNormalize rt ?built _ _ _ = _ -> _) /\ _ =>
      set (this := built);
      destruct (reference_id_keys this eq_refl) as [Hkeys Hflat]
  end.
  assert (Hevery : forall response required s result s',
             is_object response = true ->
             value_below (length (st_heap s)) response ->
             validateAndNormalize rt this response required s = Ok result s' ->
             exists v,
               extractField this response "id" s = Ok v s
               /\ get_property (st_heap s') result "id"
                  = if not_null v then v else default_of this "id").
  { intros response required s result s' Hobj Hbelow Hcall.
    eexists. split; [now rewrite extractField_spec, Hkeys|].
    rewrite (validateAndNormalize_id_value _ _ _ _ _ _ _ Hobj Hbelow Hkeys
               Hflat Hcall).
    unfold field_value. now rewrite Hkeys. }
  split; [exact Hevery|]. split.
  - intros response1 required1 sa result1 sa' response2 required2 sb result2 sb'
           Hobj1 Hbelow1 Hid1 Hcall1 Hobj2 Hbelow2 Hid2 Hcall2.
    destruct (Hevery _ _ _ _ _ Hobj1 Hbelow1 Hcall1) as (v1 & Hv1 & ->).
    destruct (Hevery _ _ _ _ _ Hobj2 Hbelow2 Hcall2) as (v2 & Hv2 & ->).
    rewrite Hid1 in Hv1. rewrite Hid2 in Hv2.
    injection Hv1 as <-. injection Hv2 as <-. split; reflexivity.
  - intros response required s Hobj.
    do 3 eexists. split; [reflexivity|].
    split; [apply createFallbackResponse_spec|].
    split; [rewrite validateAndNormalize_guard by done;
            apply createFallbackResponse_spec|].
    cbn [st_heap get_property].
    now erewrite (deref_after _ _ 3) by reflexivity.
Qed.

End Identifier.

(** ** The handler *)

Section Handler.

Variable rt : runtime.

Lemma issues_of_reads (h : heap) normalized issues s :
  s.(st_heap) = h ->
  issues_of h normalized = Some issues ->
  exists validation a,
    get_member normalized "_validation" s = Ok validation s
    /\ get_member validation "issues" s = Ok (VRef a) s
    /\ h !! a = Some (ArrayObj issues).
Proof.
  intros <- Hissues. unfold issues_of in Hissues.
  destruct normalized as [| | | | | |b|l];
    try (cbn in Hissues; discriminate).
  { destruct b; cbn in Hissues; discriminate. }
  exists (get_property (st_heap s) (VRef l) "_validation").
  destruct (get_property (st_heap s) (VRef l) "_validation")
    as [| | | | | |b|v] eqn:Hv; try (cbn in Hissues; discriminate).
  { destruct b; cbn in Hissues; discriminate. }
  destruct (get_property (st_heap s) (VRef v) "issues")
    as [| | | | | | |a] eqn:Ha; try discriminate.
  exists a. split; [|split].
  - unfold get_member, read. now rewrite Hv.
  - unfold get_member, read. now rewrite Ha.
  - destruct (st_heap s !! a) as [[|elems]|]; try discriminate.
    now injection Hissues as ->.
Qed.

Lemma handleApiResponse_normalized this apiResponse opts s normalized s1 issues :
  validateAndNormalize rt (validator this) apiResponse (requiredFields opts) s
    = Ok normalized s1 ->
  issues_of (st_heap s1) normalized = Some issues ->
  handleApiResponse rt this apiResponse opts s
  = Ok (normalized,
        set_errorCount this
          (if (0 <? Z.of_nat (length issues)) then errorCount this + 1 else 0))
       s1.
Proof.
  intros Hcall Hissues.
  destruct (issues_of_reads _ _ _ s1 eq_refl Hissues)
    as (validation & a & Hv & Ha & Harray).
  unfold handleApiResponse, try_catch.
  erewrite bind_Ok by exact Hcall.
  erewrite bind_Ok by exact Hv.
  erewrite bind_Ok by exact Ha.
  erewrite bind_Ok; cycle 1.
  { rewrite get_member_ref. erewrite deref_lookup by exact Harray.
    reflexivity. }
  unfold mbind, M_bind, greater_than_zero, mret, M_ret.
  change (object_get (ArrayObj issues) "length")
    with (VNum (Z.of_nat (length issues))).
  cbn beta iota. destruct (0 <? Z.of_nat (length issues)); reflexivity.
Qed.

Lemma handleApiResponse_keeps_threshold this apiResponse opts s result this' s' :
  handleApiResponse rt this apiResponse opts s = Ok (result, this') s' ->
  maxErrors this' = maxErrors this /\ validator this' = validator this.
Proof.
  unfold handleApiResponse, try_catch, mbind, M_bind, mret, M_ret, throw.
  intros Hcall. repeat case_match; simplify_eq; done.
Qed.

(** C8: a call whose normalisation returns a record with at least one issue
    leaves the error count one higher, and a call whose normalisation returns
    a record with no issue leaves it at 0; the threshold is 5 on a new
    handler and no call changes it; the report says "critical" exactly when
    the count is above the threshold, and "normal" otherwise; and on a new
    handler three calls with issues give the counts 1, 2, 3, and a following
    call without issues gives 0. *)
Theorem error_count_hysteresis this apiResponse opts s :
  (forall normalized s1 issues,
     validateAndNormalize rt (validator this) apiResponse (requiredFields opts) s
       = Ok normalized s1 ->
     issues_of (st_heap s1) normalized = Some issues ->
     ((0 < length issues)%nat ->
      handleApiResponse rt this apiResponse opts s
      = Ok (normalized, set_errorCount this (errorCount this + 1)) s1)
     /\ (length issues = 0%nat ->
         handleApiResponse rt this apiResponse opts s
         = Ok (normalized, set_errorCount this 0) s1))
  /\ (exists this0 s0,
        new_VuePressApiHandler rt s = Ok this0 s0
        /\ errorCount this0 = 0 /\ maxErrors this0 = 5)
  /\ (forall result this' s',
        handleApiResponse rt this apiResponse opts s = Ok (result, this') s' ->
        maxErrors this' = maxErrors this)
  /\ (exists report s',
        generateErrorReport rt this s = Ok report s'
        /\ (maxErrors this = 5 ->
            (report_status report = "critical" <-> 5 < errorCount this)
            /\ (report_status report = "normal" <-> errorCount this <= 5)))
  /\ (exists s', three_issues_then_none rt (State [] 0 0) = Ok (1, 2, 3, 0) s').
Proof.
  split; [|split; [|split; [|split]]].
  - intros normalized s1 issues Hcall Hissues.
    rewrite (handleApiResponse_normalized _ _ _ _ _ _ _ Hcall Hissues).
    split; intros Hlen.
    + replace (0 <? Z.of_nat (length issues)) with true; [done|].
      symmetry. apply Z.ltb_lt. lia.
    + now rewrite Hlen.
  - do 2 eexists. split; [reflexivity|]. split; reflexivity.
  - intros result this' s' Hcall.
    now apply handleApiResponse_keeps_threshold in Hcall as [-> _].
  - do 2 eexists. split; [reflexivity|].
    intros ->. cbn [report_status].
    destruct (5 <? errorCount this) eqn:Hlt.
    + apply Z.ltb_lt in Hlt. split; split; (done || lia).
    + apply Z.ltb_ge in Hlt. split; split; (done || lia).
  - eexists. vm_compute. reflexivity.
Qed.

End Handler.

(** ** Invalid inputs *)

(** C1 fails on the code for the input [[]]: an array is a non-null object,
    so it passes the guard and is normalised like any object.  The record
    returned has the empty string as content, which does not include the
    apology, and [null] as error. *)
Theorem handleApiResponse_empty_array_is_normalized rt :
  exists s',
    handle_and_inspect rt (l ← alloc (ArrayObj []); mret (VRef l)) (State [] 0 0)
    = Ok (VStr "", VNull, 1) s'
    /\ includes "抱歉" "" = false
    /\ truthy VNull = false.
Proof. eexists. split; [vm_compute; reflexivity|]. split; reflexivity. Qed.

(** The other four inputs of the harness, like every input that is not a
    non-null object, get the fallback record, and the call counts as one
    with issues. *)
Lemma handleApiResponse_invalid_input_falls_back rt this apiResponse opts s :
  is_object apiResponse = false ->
  exists result s',
    handleApiResponse rt this apiResponse opts s
    = Ok (result, set_errorCount this (errorCount this + 1)) s'
    /\ get_property (st_heap s') result "content" = VStr apology
    /\ includes "抱歉" apology = true
    /\ get_property (st_heap s') result "error"
       = VStr "API compatibility issue detected".
Proof.
  intros Hobj.
  pose proof (validateAndNormalize_guard rt (validator this) apiResponse
                (requiredFields opts) s Hobj) as Hcall.
  rewrite createFallbackResponse_spec in Hcall.
  match type of Hcall with _ = Ok ?r ?s1 =>
    assert (Hissues : issues_of (st_heap s1) r
                      = Some [VStr "Complete fallback response generated"])
  end.
  { unfold issues_of. cbn [st_heap get_property].
    erewrite (deref_after _ _ 3) by reflexivity.
    cbn -[deref Nat.add]. erewrite (deref_after _ _ 2) by reflexivity.
    cbn -[deref Nat.add]. now rewrite (lookup_after _ _ 1). }
  do 2 eexists. split; [|split; [|split]].
  - now rewrite (handleApiResponse_normalized _ _ _ _ _ _ _ _ Hcall Hissues).
  - cbn [st_heap get_property].
    now erewrite (deref_after _ _ 3) by reflexivity.
  - vm_compute. reflexivity.
  - cbn [st_heap get_property].
    now erewrite (deref_after _ _ 3) by reflexivity.
Qed.

Example harness_inputs_not_objects :
  Forall (fun input => is_object input = false)
         [VNull; VUndefined; VStr ""; VNum 123].
Proof. repeat constructor. Qed.

(** ** The claims at sample inputs *)

(** C2 as stated fails: for [{}], where no candidate of [content] is
    present, extraction answers [null], the very answer it gives for
    [{ content: null }]. *)
Lemma extractField_absent_is_plain_null :
  let s := sample_state sample_objects in
  possibleKeys sample_validator "content" s
  = Ok ["content"; "text"; "message"; "response"; "result"] s
  /\ Forall (fun key => hasNestedProperty (VRef 1%nat) key s = Ok false s)
            ["content"; "text"; "message"; "response"; "result"]
  /\ extractField sample_validator (VRef 1%nat) "content" s = Ok VNull s
  /\ extractField sample_validator (VRef 2%nat) "content" s = Ok VNull s.
Proof. cbn zeta. repeat split; repeat constructor. Qed.

Lemma extractField_absent_is_null_witness :
  extractField sample_validator (VRef 1%nat) "content"
    (sample_state sample_objects)
  = Ok VNull (sample_state sample_objects)
  /\ extractField sample_validator (VRef 2%nat) "content"
       (sample_state sample_objects)
     = Ok VNull (sample_state sample_objects).
Proof.
  pose proof (extractField_absent_is_null sample_validator (VRef 1%nat)
                "content" _ (sample_state sample_objects) eq_refl) as [H1 _].
  pose proof (extractField_absent_is_null sample_validator (VRef 2%nat)
                "content" _ (sample_state sample_objects) eq_refl) as [_ H2].
  split.
  - apply H1. repeat constructor.
  - apply (H2 [] "content" ["text"; "message"; "response"; "result"]);
      repeat constructor.
Defined.

Lemma extractField_honors_table_order_witness :
  extractField sample_validator (VRef 1%nat) "content"
    (sample_state sample_synonyms)
  = Ok (VStr "b") (sample_state sample_synonyms)
  /\ extractField text_first_validator (VRef 1%nat) "content"
       (sample_state sample_synonyms)
     = Ok (VStr "a") (sample_state sample_synonyms)
  /\ extractField sample_validator (VRef 1%nat) "content"
       (sample_state sample_text_only)
     = Ok (VStr "a") (sample_state sample_text_only)
  /\ extractField sample_validator (VRef 1%nat) "content"
       (sample_state sample_response_only)
     = Ok (VStr "r") (sample_state sample_response_only)
  /\ extractField sample_validator (VRef 1%nat) "content"
       (sample_state sample_nested)
     = Ok VNull (sample_state sample_nested).
Proof.
  destruct (extractField_honors_table_order sample_validator
              (sample_state sample_synonyms)) as (_ & _ & _ & Hexample & _).
  destruct (extractField_honors_table_order text_first_validator
              (sample_state sample_synonyms)) as (_ & _ & _ & Hreversed & _).
  destruct (extractField_honors_table_order sample_validator
              (sample_state sample_text_only)) as (_ & _ & _ & _ & Htext).
  destruct (extractField_honors_table_order sample_validator
              (sample_state sample_response_only))
    as (Hresolves & Hflat & _).
  split; [|split; [|split; [|split]]].
  - apply (proj1 (Hexample 1%nat ["message"; "response"; "result"] eq_refl)).
    reflexivity.
  - apply (proj2 (Hreversed 1%nat [] eq_refl)). reflexivity.
  - apply (Htext 1%nat ["message"; "response"; "result"]); reflexivity.
  - apply (Hflat 1%nat _ "content" ["content"; "text"; "message"] "response"
             ["result"] (VStr "r") eq_refl eq_refl);
      [repeat constructor|reflexivity|reflexivity].
  - reflexivity.
Defined.

(** C10: extraction faults on an inherited name.  For the field name
    [constructor] and the response [{}], the synonym table of a new
    validator yields the function it inherits under that name, which is
    truthy and cannot be iterated, and extraction throws a TypeError where
    the claim, and the function's own description, promise a value or
    [null]. *)
Lemma extractField_throws_on_inherited_name :
  extractField sample_validator (VRef 1%nat) "constructor"
    (sample_state sample_objects)
  = Throw (TypeError "possibleKeys is not iterable")
          (sample_state sample_objects).
Proof. reflexivity. Qed.

Lemma extractField_total_witness :
  (exists v,
     extractField sample_validator (VRef 1%nat) "content"
       (sample_state sample_synonyms)
     = Ok v (sample_state sample_synonyms))
  /\ (exists v,
        getNestedProperty (VRef 1%nat) "text" (sample_state sample_synonyms)
        = Ok v (sample_state sample_synonyms)).
Proof.
  pose proof (extractField_total sample_validator (VRef 1%nat) "content"
                (sample_state sample_synonyms)
                (or_introl (ex_intro _ _ eq_refl))) as [Hextract Hget].
  split; [exact Hextract|].
  exact (proj1 (Hget "text" eq_refl)).
Defined.

(** C3 as stated fails: for [{ content: "x" }] and the required field
    [content], the optional field [id] is not found in the input and
    receives its default, yet the issues list is empty. *)
Lemma optional_default_records_no_issue :
  exists result s',
    validateAndNormalize sample_runtime sample_validator (VRef 1%nat)
      ["content"] (sample_state sample_content)
    = Ok result s'
    /\ issues_of (st_heap s') result = Some []
    /\ "id" ∈ optionalFields
    /\ extractField sample_validator (VRef 1%nat) "id"
         (sample_state sample_content)
       = Ok VNull (sample_state sample_content)
    /\ get_property (st_heap s') result "id" = default_of sample_validator "id".
Proof.
  do 2 eexists. split; [vm_compute; reflexivity|].
  split; [reflexivity|]. split; [|split; reflexivity].
  unfold optionalFields. apply elem_of_cons. now left.
Qed.

Lemma issues_iff_required_field_missing_witness :
  exists result s',
    validateAndNormalize sample_runtime sample_validator (VRef 1%nat)
      ["content"] (sample_state sample_objects)
    = Ok result s'
    /\ exists issues,
         issues_of (st_heap s') result = Some issues
         /\ ((0 < length issues)%nat
             <-> exists field, field ∈ ["content"]
                   /\ extractField sample_validator (VRef 1%nat) field
                        (sample_state sample_objects)
                      = Ok VNull (sample_state sample_objects)).
Proof.
  do 2 eexists. split; [vm_compute; reflexivity|].
  apply (issues_iff_required_field_missing sample_runtime sample_validator
           (VRef 1%nat) ["content"] (sample_state sample_objects)).
  - reflexivity.
  - closed_sample.
  - cbn. lia.
  - not_in_list.
  - vm_compute. reflexivity.
Defined.

(** C4 as stated fails: the fallback record returned for the input [123]
    has no [_original] property. *)
Lemma fallback_response_has_no_original :
  exists result s',
    validateAndNormalize sample_runtime sample_validator (VNum 123)
      ["content"] (sample_state [])
    = Ok result s'
    /\ has_property (st_heap s') result "_original" = false
    /\ get_property (st_heap s') result "_original" = VUndefined.
Proof.
  do 2 eexists. split; [vm_compute; reflexivity|]. split; reflexivity.
Qed.

Lemma normalized_response_diagnostics_witness :
  (exists result s',
     validateAndNormalize sample_runtime sample_validator (VNum 123)
       ["content"] (sample_state [])
     = Ok result s'
     /\ has_property (st_heap s') result "_original" = false
     /\ get_property (st_heap s')
          (get_property (st_heap s') result "_validation") "timestamp"
        = VStr "T1700000000004")
  /\ (exists result s',
        validateAndNormalize sample_runtime sample_validator (VRef 1%nat)
          ["content"] (sample_state sample_content)
        = Ok result s'
        /\ get_property (st_heap s') result "_original" = VRef 1%nat
        /\ get_property (st_heap s')
             (get_property (st_heap s') result "_validation") "timestamp"
           = VStr "T1700000000002"
        /\ st_heap s' !! 1%nat = Some (PlainObj [("content", VStr "x")])).
Proof.
  split.
  - apply (normalized_response_diagnostics sample_runtime sample_validator
             (VNum 123) ["content"] (sample_state [])).
    reflexivity.
  - destruct (normalized_response_diagnostics sample_runtime sample_validator
                (VRef 1%nat) ["content"] (sample_state sample_content))
      as [_ Hobject].
    do 2 eexists. split; [vm_compute; reflexivity|].
    edestruct Hobject as (Horiginal & Htimestamp & Hkeeps);
      [reflexivity|not_in_list|not_in_list|vm_compute; reflexivity|].
    split; [exact Horiginal|]. split; [exact Htimestamp|].
    apply Hkeeps. reflexivity.
Defined.

(** C5 as stated fails: two normalisations of [{}] by one validator, one
    after the other, both fall back to the [id] default and receive the same
    identifier, although the clock has advanced between them. *)
Lemma id_default_is_shared_by_calls :
  exists s',
    normalize_twice (State [] 0 0)
    = Ok (VStr "fallback-1700000000000-k3j9x2m0",
          VStr "fallback-1700000000000-k3j9x2m0") s'.
Proof. eexists. vm_compute. reflexivity. Qed.

Lemma id_default_is_fixed_at_construction_witness :
  exists result1 s1 result2 s2,
    validateAndNormalize sample_runtime sample_validator (VRef 1%nat)
      ["content"] (sample_state sample_objects)
    = Ok result1 s1
    /\ validateAndNormalize sample_runtime sample_validator (VRef 3%nat)
         ["_validation"; "content"] (sample_state sample_aliased)
       = Ok result2 s2
    /\ get_property (st_heap s1) result1 "id"
       = VStr "fallback-1700000000000-k3j9x2m0"
    /\ get_property (st_heap s2) result2 "id"
       = VStr "fallback-1700000000000-k3j9x2m0".
Proof.
  destruct (id_default_is_fixed_at_construction sample_runtime (State [] 0 0))
    as (this & id0 & s1 & Hnew & Hid0 & _ & _ & Htwo & _).
  vm_compute in Hnew. injection Hnew as <- <-.
  vm_compute in Hid0. injection Hid0 as <-.
  do 4 eexists. split; [vm_compute; reflexivity|].
  split; [vm_compute; reflexivity|].
  apply (Htwo (VRef 1%nat) ["content"] (sample_state sample_objects) _ _
              (VRef 3%nat) ["_validation"; "content"]
              (sample_state sample_aliased)).
  - reflexivity.
  - cbn. lia.
  - reflexivity.
  - vm_compute. reflexivity.
  - reflexivity.
  - cbn. lia.
  - reflexivity.
  - vm_compute. reflexivity.
Defined.

Lemma error_count_hysteresis_witness :
  (exists result s',
     handleApiResponse sample_runtime sample_handler (VRef 1%nat)
       default_options (sample_state sample_objects)
     = Ok (result, set_errorCount sample_handler 3) s')
  /\ (exists result s',
        handleApiResponse sample_runtime sample_handler (VRef 1%nat)
          default_options (sample_state sample_content)
        = Ok (result, set_errorCount sample_handler 0) s')
  /\ (exists report s',
        generateErrorReport sample_runtime sample_handler
          (sample_state sample_objects)
        = Ok report s'
        /\ report_status report = "normal").
Proof.
  destruct (error_count_hysteresis sample_runtime sample_handler (VRef 1%nat)
              default_options (sample_state sample_objects))
    as (Hcount & _ & _ & (report & s' & Hreport & Hstatus) & _).
  destruct (error_count_hysteresis sample_runtime sample_handler (VRef 1%nat)
              default_options (sample_state sample_content))
    as (Hreset & _).
  split; [|split].
  - edestruct Hcount as [Hincrement _];
      [vm_compute; reflexivity|vm_compute; reflexivity|].
    do 2 eexists. apply Hincrement. cbn. lia.
  - edestruct Hreset as [_ Hzero];
      [vm_compute; reflexivity|vm_compute; reflexivity|].
    do 2 eexists. apply Hzero. reflexivity.
  - exists report, s'. split; [exact Hreport|].
    apply (proj2 (Hstatus eq_refl)). cbn. lia.
Defined.

(** C9: normalisation writes into the input.  When [_validation] is
    required and found in the response, the record under construction
    refers to the response's own [_validation] object, and the issue
    recorded for the next missing field is pushed onto the array of the
    response: for [{ _validation: { issues: [] } }] and the required fields
    [_validation] and [content], the input's array is empty before the call
    and holds ["Missing field: content"] after it. *)
Lemma validateAndNormalize_pushes_onto_input_array :
  exists result s',
    validateAndNormalize sample_runtime sample_validator (VRef 3%nat)
      ["_validation"; "content"] (sample_state sample_aliased)
    = Ok result s'
    /\ st_heap (sample_state sample_aliased) !! 1%nat = Some (ArrayObj [])
    /\ st_heap s' !! 1%nat = Some (ArrayObj [VStr "Missing field: content"]).
Proof.
  do 2 eexists. split; [vm_compute; reflexivity|]. split; reflexivity.
Qed.

Lemma resolution_keeps_the_raw_input_witness :
  final_state (extractField sample_validator (VRef 3%nat) "content"
                 (sample_state sample_aliased))
  = Some (sample_state sample_aliased)
  /\ exists s',
       final_state (validateAndNormalize sample_runtime sample_validator
                      (VRef 3%nat) ["content"] (sample_state sample_aliased))
       = Some s'
       /\ st_heap s' !! 1%nat = Some (ArrayObj []).
Proof.
  destruct (resolution_keeps_the_raw_input sample_runtime sample_validator
              (VRef 3%nat) (sample_state sample_aliased)) as [Hextract Hcall].
  split; [apply Hextract|].
  eexists. split; [vm_compute; reflexivity|].
  eapply (Hcall ["content"]).
  - not_in_list.
  - vm_compute. reflexivity.
  - reflexivity.
Defined.

(** * Further properties of the code *)

(** ** Dot-paths *)

Lemma split_dot_nonempty path : split_dot path <> [].
Proof.
  induction path as [|c path IH]; cbn; [discriminate|].
  destruct (Ascii.eqb c "."); [discriminate|].
  now destruct (split_dot path).
Qed.

Lemma split_dot_join prefix rest :
  split_dot (prefix +:+ "." +:+ rest) = split_dot prefix ++ split_dot rest.
Proof.
  change ("." +:+ rest) with (String "."%char rest).
  induction prefix as [|c prefix IH]; [reflexivity|].
  simpl. rewrite IH.
  destruct (Ascii.eqb c "."); [reflexivity|].
  destruct (split_dot prefix) eqn:Hsplit; [|reflexivity].
  now apply split_dot_nonempty in Hsplit.
Qed.

Lemma has_path_join h keys1 keys2 : forall v,
  has_path h v (keys1 ++ keys2)
  = has_path h v keys1 && has_path h (follow h v keys1) keys2.
Proof.
  induction keys1 as [|key keys1 IH]; intros v; [reflexivity|].
  cbn [app has_path]. rewrite IH. unfold follow. cbn [foldl].
  now rewrite <- !andb_assoc.
Qed.

Lemma getNestedProperty_loop_join keys1 keys2 : forall v s,
  getNestedProperty_loop v (keys1 ++ keys2) s
  = (getNestedProperty_loop v keys1 ≫= fun v' =>
     getNestedProperty_loop v' keys2) s.
Proof.
  induction keys1 as [|key keys1 IH]; intros v s; [reflexivity|].
  cbn [app getNestedProperty_loop]. unfold mbind, M_bind.
  destruct (get_member v key s) as [v' s'|e s'|]; [|reflexivity..].
  apply IH.
Qed.

Lemma nested_paths_compose_aux obj prefix rest v s :
  hasNestedProperty obj prefix s = Ok true s ->
  getNestedProperty obj prefix s = Ok v s ->
  hasNestedProperty obj (prefix +:+ "." +:+ rest) s = hasNestedProperty v rest s
  /\ getNestedProperty obj (prefix +:+ "." +:+ rest) s
     = getNestedProperty v rest s.
Proof.
  intros Hhas%hasNestedProperty_result Hget.
  rewrite getNestedProperty_guarded in Hget by done. injection Hget as <-.
  split.
  - rewrite !hasNestedProperty_spec. unfold present.
    rewrite split_dot_join, has_path_join.
    unfold present in Hhas. now rewrite Hhas.
  - unfold getNestedProperty. rewrite split_dot_join, getNestedProperty_loop_join.
    erewrite bind_Ok; [reflexivity|].
    now apply getNestedProperty_loop_guarded.
Qed.

(** X1: dot-paths compose.  When a prefix of a path is present in an object
    and leads to the value [v], the presence test for the whole path is the
    presence test for the rest of the path in [v], and reading the whole
    path is reading the rest of the path in [v]. *)
Theorem nested_paths_compose obj prefix rest v s :
  hasNestedProperty obj prefix s = Ok true s ->
  getNestedProperty obj prefix s = Ok v s ->
  hasNestedProperty obj (prefix +:+ "." +:+ rest) s = hasNestedProperty v rest s
  /\ getNestedProperty obj (prefix +:+ "." +:+ rest) s
     = getNestedProperty v rest s.
Proof. apply nested_paths_compose_aux. Qed.

(** X2: the unguarded read faults where the guarded test answers no.  When a
    prefix of a path is present and holds [null] or [undefined], the
    presence test for any longer path answers [false], and reading the longer
    path throws a TypeError and leaves the store as it was. *)
Theorem getNestedProperty_throws_through_null obj prefix rest v s :
  hasNestedProperty obj prefix s = Ok true s ->
  getNestedProperty obj prefix s = Ok v s ->
  v = VNull \/ v = VUndefined ->
  hasNestedProperty obj (prefix +:+ "." +:+ rest) s = Ok false s
  /\ exists msg,
       getNestedProperty obj (prefix +:+ "." +:+ rest) s
       = Throw (TypeError msg) s.
Proof.
  intros Hhas Hget Hv.
  destruct (nested_paths_compose_aux obj prefix rest v s Hhas Hget) as [-> ->].
  unfold hasNestedProperty, getNestedProperty.
  destruct (split_dot rest) as [|key keys] eqn:Hsplit;
    [now apply split_dot_nonempty in Hsplit|].
  destruct Hv as [-> | ->]; split; (reflexivity || (eexists; reflexivity)).
Qed.

(** ** Field resolution at the edges *)

Lemma has_path_not_object h v keys :
  is_object v = false -> keys <> [] -> has_path h v keys = false.
Proof.
  intros Hobj Hkeys. destruct keys as [|key keys]; [done|].
  cbn [has_path]. now rewrite Hobj.
Qed.

(** X3: for a response that is not a non-null object ([null], [undefined], a
    number, a string, a boolean, a function) the presence test answers
    [false] for every path, and extraction answers [null] for every field
    name that is a key of the synonym table or is not inherited by it. *)
Theorem resolution_on_non_object this response s :
  is_object response = false ->
  (forall path, hasNestedProperty response path s = Ok false s)
  /\ (forall fieldName,
        is_Some (alist_get (fieldMappings this) fieldName)
        \/ inherited ObjectPrototype fieldName = false ->
        extractField this response fieldName s = Ok VNull s).
Proof.
  intros Hobj.
  assert (Habsent : forall path, present (st_heap s) response path = false).
  { intros path. apply has_path_not_object; [done|apply split_dot_nonempty]. }
  split.
  - intros path. rewrite hasNestedProperty_spec. now rewrite Habsent.
  - intros fieldName Hname. rewrite extractField_spec.
    assert (exists keys, field_keys this fieldName = Some keys) as [keys ->].
    { unfold field_keys. destruct Hname as [[keys ->]| ->]; [eauto|].
      destruct (alist_get _ _); eauto. }
    rewrite extract_value_absent; [done|].
    apply Forall_forall. intros key _. apply Habsent.
Qed.

Lemma find_app_none {A} (P : A -> bool) l1 l2 :
  find P l1 = None -> find P (l1 ++ l2) = find P l2.
Proof.
  induction l1 as [|x l1 IH]; [done|]. cbn [app find].
  destruct (P x); [discriminate|exact IH].
Qed.

Lemma find_app_some {A} (P : A -> bool) l1 l2 x :
  find P l1 = Some x -> find P (l1 ++ l2) = Some x.
Proof.
  induction l1 as [|y l1 IH]; [discriminate|]. cbn [app find].
  destruct (P y); [done|exact IH].
Qed.

Lemma find_none {A} (P : A -> bool) l :
  Forall (fun x => P x = false) l -> find P l = None.
Proof.
  induction 1 as [|x l Hx _ IH]; [done|]. cbn [find]. now rewrite Hx.
Qed.

(** X4: appending a path to the candidates of a field, as the test suite does
    with [fieldMappings.content.push('data.message')], extends resolution
    without changing it.  Whenever some candidate of the old list is
    present, the new list gives the answer of the old list; and when no old
    candidate is present, the new list answers what the appended path
    holds, or [null] when that path is absent too. *)
Theorem appended_synonym_is_conservative old new fieldName keys path response s :
  alist_get (fieldMappings old) fieldName = Some keys ->
  alist_get (fieldMappings new) fieldName = Some (keys ++ [path]) ->
  (forall key, key ∈ keys ->
     hasNestedProperty response key s = Ok true s ->
     extractField new response fieldName s = extractField old response fieldName s)
  /\ (Forall (fun key => hasNestedProperty response key s = Ok false s) keys ->
      (hasNestedProperty response path s = Ok true s ->
       extractField new response fieldName s = getNestedProperty response path s)
      /\ (hasNestedProperty response path s = Ok false s ->
          extractField new response fieldName s = Ok VNull s)).
Proof.
  intros Hold Hnew. rewrite !extractField_spec. unfold field_keys.
  rewrite Hold, Hnew. unfold extract_value. split.
  - intros key Hin Hpresent%hasNestedProperty_result.
    destruct (find (present (st_heap s) response) keys) as [found|] eqn:Hfind.
    + now rewrite (find_app_some _ _ _ _ Hfind).
    + exfalso. revert Hfind. clear -Hin Hpresent.
      induction keys as [|k keys IH]; [now apply not_elem_of_nil in Hin|].
      cbn [find]. apply elem_of_cons in Hin as [<-|Hin].
      * now rewrite Hpresent.
      * destruct (present _ _ k); [discriminate|]. now apply IH.
  - intros Habsent.
    assert (Hfind : find (present (st_heap s) response) keys = None).
    { apply find_none. eapply Forall_impl; [exact Habsent|].
      intros k. apply hasNestedProperty_result. }
    rewrite (find_app_none _ _ _ Hfind). cbn [find].
    split; intros Hpath%hasNestedProperty_result; rewrite Hpath; [|done].
    now rewrite getNestedProperty_guarded.
Qed.

(** ** Fallback identifiers *)

Lemma append_cons c (s1 s2 : string) :
  String c s1 +:+ s2 = String c (s1 +:+ s2).
Proof. reflexivity. Qed.

Lemma all_digits_app s1 s2 :
  all_digits (s1 +:+ s2) = all_digits s1 && all_digits s2.
Proof.
  induction s1 as [|c s1 IH]; [reflexivity|].
  rewrite append_cons. cbn [all_digits]. now rewrite IH, andb_assoc.
Qed.

Lemma string_app_assoc (s1 s2 s3 : string) :
  (s1 +:+ s2) +:+ s3 = s1 +:+ (s2 +:+ s3).
Proof.
  induction s1 as [|c s1 IH]; [reflexivity|].
  rewrite !append_cons. now rewrite IH.
Qed.

Lemma string_app_nil_r (s : string) : s +:+ "" = s.
Proof.
  induction s as [|c s IH]; [reflexivity|].
  rewrite append_cons. now rewrite IH.
Qed.

Lemma pretty_N_char_digit x : is_digit (pretty_N_char x) = true.
Proof. unfold pretty_N_char. repeat case_match; reflexivity. Qed.

Lemma pretty_N_go_digits x : forall s,
  exists d, pretty_N_go x s = d +:+ s /\ all_digits d = true
            /\ ((0 < x)%N -> d <> "").
Proof.
  induction (N.lt_wf_0 x) as [x _ IH]; intros s.
  assert (x = 0 \/ 0 < x)%N as [->|Hpos] by lia.
  - exists "". rewrite pretty_N_go_0. repeat split. lia.
  - rewrite pretty_N_go_step by done.
    destruct (IH (x `div` 10)%N (N.div_lt x 10 Hpos eq_refl)
                (String (pretty_N_char (x `mod` 10)) s))
      as (d & -> & Hd & _).
    exists (d +:+ String (pretty_N_char (x `mod` 10)) "").
    rewrite string_app_assoc. split; [reflexivity|]. split.
    + rewrite all_digits_app, Hd. cbn. now rewrite pretty_N_char_digit.
    + intros _. now destruct d.
Qed.

Lemma pretty_N_digits (x : N) :
  all_digits (pretty x) = true /\ pretty x <> "".
Proof.
  unfold pretty, pretty_N. case_decide as Hx; [done|].
  destruct (pretty_N_go_digits x "") as (d & -> & Hd & Hne).
  rewrite string_app_nil_r. split; [done|]. apply Hne. lia.
Qed.

Lemma digits_then_dash d1 d2 r1 r2 :
  all_digits d1 = true -> all_digits d2 = true ->
  d1 +:+ String "-" r1 = d2 +:+ String "-" r2 ->
  d1 = d2 /\ r1 = r2.
Proof.
  revert d2. induction d1 as [|c d1 IH]; intros [|c' d2] H1 H2 Heq;
    cbn in Heq.
  - now injection Heq as ->.
  - injection Heq as <- _. cbn in H2. discriminate.
  - injection Heq as -> _. cbn in H1. discriminate.
  - injection Heq as -> Heq. cbn in H1, H2.
    apply andb_true_iff in H1 as [_ H1]. apply andb_true_iff in H2 as [_ H2].
    destruct (IH d2 H1 H2 Heq) as [-> ->]. done.
Qed.

Lemma pretty_Z_then_dash (z1 z2 : Z) r1 r2 :
  pretty z1 +:+ String "-" r1 = pretty z2 +:+ String "-" r2 ->
  z1 = z2 /\ r1 = r2.
Proof.
  assert (Hshape : forall z : Z,
             (all_digits (pretty z) = true /\ pretty z <> "")
             \/ exists d, pretty z = String "-" d
                          /\ all_digits d = true /\ d <> "").
  { intros [|p|p].
    - left. split; [reflexivity|discriminate].
    - left. apply (pretty_N_digits (N.pos p)).
    - right. exists (pretty (N.pos p)). split; [reflexivity|].
      apply pretty_N_digits. }
  intros Heq.
  destruct (Hshape z1) as [[H1 N1]|(d1 & E1 & H1 & N1)],
           (Hshape z2) as [[H2 N2]|(d2 & E2 & H2 & N2)].
  - destruct (digits_then_dash _ _ _ _ H1 H2 Heq) as [Hp ->].
    split; [|done]. now apply (inj pretty).
  - exfalso. rewrite E2 in Heq. destruct (pretty z1) as [|c d] eqn:E; [done|].
    cbn in Heq. injection Heq as -> _. cbn in H1. discriminate.
  - exfalso. rewrite E1 in Heq. destruct (pretty z2) as [|c d] eqn:E; [done|].
    cbn in Heq. injection Heq as <- _. cbn in H2. discriminate.
  - pose proof Heq as Heq'. rewrite E1, E2 in Heq'. cbn in Heq'.
    injection Heq' as Heq'.
    destruct (digits_then_dash _ _ _ _ H1 H2 Heq') as [Hd ->].
    split; [|done]. apply (inj pretty). now rewrite E1, E2, Hd.
Qed.

(** X5: fallback identifiers are unique per reading.  A call of
    [generateFallbackId] always returns, reads the clock once and draws one
    random number; the identifier starts with ["fallback-"]; and two calls
    return the same identifier only if they read the same time and drew the
    same random suffix. *)
Theorem generateFallbackId_injective rt s1 s2 :
  exists id1 id2,
    generateFallbackId rt s1
    = Ok id1 (State (st_heap s1) (S (st_clock s1)) (S (st_random s1)))
    /\ generateFallbackId rt s2
       = Ok id2 (State (st_heap s2) (S (st_clock s2)) (S (st_random s2)))
    /\ (exists rest, id1 = "fallback-" +:+ rest)
    /\ (id1 = id2 ->
        Date_now rt (st_clock s1) = Date_now rt (st_clock s2)
        /\ Math_random36 rt (st_random s1) = Math_random36 rt (st_random s2)).
Proof.
  do 2 eexists. split; [reflexivity|]. split; [reflexivity|].
  cbn [st_random st_clock]. split; [eexists; reflexivity|].
  rewrite !append_cons. intros [= Heq]. now apply pretty_Z_then_dash.
Qed.

(** ** The fallback record *)

(** X6: the fallback record is complete, new and harmless.  A call of
    [createFallbackResponse] always returns a reference to an object that was
    not in the store before, leaves every object of the store as it was, and
    the record holds the apology, the identifier [generateFallbackId] gives
    at that moment, the fallback model, a usage record of its own with zero
    tokens, the error text, and exactly one issue. *)
Theorem createFallbackResponse_is_fresh_and_complete rt s :
  exists l u id s0 s',
    createFallbackResponse rt s = Ok (VRef l) s'
    /\ st_heap s !! l = None
    /\ (forall l0 obj, st_heap s !! l0 = Some obj -> st_heap s' !! l0 = Some obj)
    /\ get_property (st_heap s') (VRef l) "content" = VStr apology
    /\ generateFallbackId rt s = Ok id s0
    /\ get_property (st_heap s') (VRef l) "id" = VStr id
    /\ get_property (st_heap s') (VRef l) "timestamp"
       = VStr (timestamp_at rt (1 + st_clock s))
    /\ get_property (st_heap s') (VRef l) "model" = VStr "fallback-model"
    /\ get_property (st_heap s') (VRef l) "usage" = VRef u
    /\ st_heap s !! u = None
    /\ get_property (st_heap s') (VRef u) "total_tokens" = VNum 0
    /\ get_property (st_heap s') (VRef l) "error"
       = VStr "API compatibility issue detected"
    /\ issues_of (st_heap s') (VRef l)
       = Some [VStr "Complete fallback response generated"].
Proof.
  exists (3 + length (st_heap s))%nat, (length (st_heap s)).
  do 3 eexists. split; [apply createFallbackResponse_spec|].
  cbn [st_heap]. split; [apply lookup_ge_None; lia|].
  split; [intros l0 obj Hl0; now apply lookup_app_l_Some|].
  unfold issues_of. cbn [get_property].
  erewrite !(deref_after _ _ 3) by reflexivity.
  split; [reflexivity|]. split; [reflexivity|]. split; [reflexivity|].
  split; [reflexivity|]. split; [reflexivity|]. split; [reflexivity|].
  split; [apply lookup_ge_None; lia|].
  split; [now erewrite deref_lookup by (apply list_lookup_middle; reflexivity)|].
  split; [reflexivity|].
  cbn -[deref Nat.add]. erewrite (deref_after _ _ 2) by reflexivity.
  cbn -[deref Nat.add]. now rewrite (lookup_after _ _ 1).
Qed.

(** ** The normalised record *)

Lemma inherited_get_undefined self k :
  inherited ObjectPrototype k = false ->
  inherited_get self ObjectPrototype k = VUndefined.
Proof.
  unfold inherited, inherited_get.
  intros [Hm Hp]%orb_false_iff. now rewrite Hp, Hm.
Qed.

Section OptionalFold.

Variables (this : ApiResponseValidator) (response : value).
Variables (h : heap) (vprops : list (string * value)) (iss : list value).
Hypothesis h_closed : closed_heap h.
Hypothesis response_below : value_below (length h) response.

Lemma optional_fold_preserves fields k : forall props,
  alist_get props k = Some (field_value this h response k) ->
  alist_get (foldl (optional_acc this response h vprops iss) props fields) k
  = Some (field_value this h response k).
Proof.
  induction fields as [|field fields IH]; intros props Hk; [done|].
  cbn [foldl]. apply IH. unfold optional_acc.
  destruct (truthy _); [done|].
  rewrite field_value_building by done.
  destruct (decide (field = k)) as [->|Hne].
  - apply alist_get_set_eq.
  - now rewrite alist_get_set_ne.
Qed.

Lemma optional_fold_sets fields k : forall props,
  k ∈ fields ->
  inherited ObjectPrototype k = false ->
  alist_get props k = Some (field_value this h response k)
  \/ alist_get props k = None ->
  alist_get (foldl (optional_acc this response h vprops iss) props fields) k
  = Some (field_value this h response k).
Proof.
  induction fields as [|field fields IH]; intros props Hin Hni Hk.
  - now apply not_elem_of_nil in Hin.
  - cbn [foldl]. destruct (decide (field = k)) as [->|Hne].
    + apply optional_fold_preserves. unfold optional_acc.
      destruct Hk as [Hk|Hk].
      * destruct (truthy _); [done|].
        rewrite field_value_building by done. apply alist_get_set_eq.
      * cbn [object_get]. rewrite Hk, inherited_get_undefined by done.
        cbn [truthy]. rewrite field_value_building by done.
        apply alist_get_set_eq.
    + apply elem_of_cons in Hin as [->|Hin]; [done|].
      apply IH; [done..|].
      now rewrite optional_acc_keeps.
Qed.

End OptionalFold.

Section Completeness.

Variable rt : runtime.

Lemma required_loop_keys this response h vprops c r fields : forall iss props u s',
  alist_get vprops "issues" = Some (VRef (length h)) ->
  alist_get props "_validation" = Some (VRef (S (length h))) ->
  "_validation" ∉ fields ->
  for_each fields (required_step this response (S (S (length h))))
    (State (building h vprops iss props) c r) = Ok u s' ->
  Forall (fun field => is_Some (field_keys this field)) fields.
Proof.
  induction fields as [|field fields IH];
    intros iss props u s' Hissues Hvalidation Hfields Hrun; [constructor|].
  apply not_elem_of_cons in Hfields as [Hne Hfields].
  revert Hrun. cbn [for_each]. unfold mbind, M_bind.
  rewrite required_step_building by (done || now apply not_eq_sym).
  destruct (field_keys this field) as [keys|] eqn:Hkeys; [|discriminate].
  destruct (_ && _); [discriminate|]. cbn zeta beta iota. intros Hrun.
  constructor; [rewrite Hkeys; eauto|].
  eapply IH; [exact Hissues| |exact Hfields|exact Hrun].
  rewrite required_acc_keeps; [done|]. now apply not_eq_sym.
Qed.

Lemma validateAndNormalize_required_keys this response required s result s' :
  is_object response = true ->
  "_validation" ∉ required ->
  validateAndNormalize rt this response required s = Ok result s' ->
  Forall (fun field => is_Some (field_keys this field)) required.
Proof.
  intros Hobj Hrequired. rewrite validateAndNormalize_loops by done.
  unfold mbind, M_bind.
  destruct (for_each required _ _) as [u s1|e s1|] eqn:Hloop;
    [|discriminate..].
  intros _. eapply required_loop_keys; [| |exact Hrequired|exact Hloop];
    reflexivity.
Qed.

(** The value a normalised record holds for a required or optional field. *)
Lemma normalized_field_value this response required s result s' :
  is_object response = true ->
  closed_heap (st_heap s) ->
  value_below (length (st_heap s)) response ->
  "_validation" ∉ required ->
  validateAndNormalize rt this response required s = Ok result s' ->
  forall field,
    field ∈ required \/ field ∈ optionalFields ->
    is_Some (field_keys this field)
    /\ own_key (st_heap s') result field = true
    /\ get_property (st_heap s') result field
       = field_value this (st_heap s) response field.
Proof.
  intros Hobj Hclosed Hbelow Hrequired Hcall field Hfield.
  pose proof (validateAndNormalize_required_keys _ _ _ _ _ _ Hobj Hrequired
                Hcall) as Hkeys.
  destruct (validateAndNormalize_result rt _ _ _ _ _ _ Hobj Hrequired Hcall)
    as (-> & -> & _ & _).
  set (h := st_heap s) in *.
  set (vprops := validation_props h (timestamp_at rt (st_clock s))).
  set (acc := foldl (required_acc this response h vprops)
                    ([], initial_props h response) required).
  assert (Hfield_keys : exists keys, field_keys this field = Some keys).
  { destruct Hfield as [Hin|Hin].
    - rewrite Forall_forall in Hkeys. destruct (Hkeys field Hin); eauto.
    - apply field_keys_not_inherited.
      pose proof optionalFields_not_inherited as Hopt.
      rewrite Forall_forall in Hopt. now apply Hopt. }
  destruct Hfield_keys as [keys Hfk].
  assert (Hvalue : alist_get
            (foldl (optional_acc this response h vprops acc.1) acc.2
               optionalFields) field
          = Some (field_value this h response field)).
  { destruct (decide (field ∈ required)) as [Hin|Hnin].
    - apply optional_fold_preserves; [done..|].
      unfold acc. rewrite required_fold_props by done.
      now rewrite decide_True.
    - destruct Hfield as [?|Hopt]; [done|].
      apply optional_fold_sets; [done..| |].
      + pose proof optionalFields_not_inherited as Hall.
        rewrite Forall_forall in Hall. now apply Hall.
      + right. unfold acc. rewrite required_fold_props by done.
        rewrite decide_False by done. unfold initial_props. cbn [snd].
        assert (field <> "_original" /\ field <> "_validation") as [H1 H2].
        { split; intros ->.
          - now apply optionalFields_not_original.
          - now apply optionalFields_not_validation. }
        cbn [alist_get].
        apply not_eq_sym, String.eqb_neq in H1, H2. now rewrite H1, H2. }
  split; [rewrite Hfk; eauto|].
  cbn [own_key]. erewrite deref_lookup by apply building_lookup_response.
  rewrite get_property_building_response.
  cbn [own_property]. rewrite Hvalue. split.
  - apply bool_decide_eq_true. eauto.
  - now rewrite (object_get_own _ _ _ Hvalue).
Qed.

(** X7: the normalised record is complete.  For a non-null object in a store
    all of whose references are allocated, and required fields that do not
    name [_validation], every required field and every one of the five
    optional fields is an own property of the record returned, and it holds
    the value extraction gives for that field or, when extraction answers
    [null], the entry of the table of defaults for it. *)
Theorem normalized_record_is_complete this response required s result s' :
  is_object response = true ->
  closed_heap (st_heap s) ->
  value_below (length (st_heap s)) response ->
  "_validation" ∉ required ->
  validateAndNormalize rt this response required s = Ok result s' ->
  forall field,
    field ∈ required \/ field ∈ optionalFields ->
    exists v,
      extractField this response field s = Ok v s
      /\ own_key (st_heap s') result field = true
      /\ get_property (st_heap s') result field
         = if not_null v then v else default_of this field.
Proof.
  intros Hobj Hclosed Hbelow Hrequired Hcall field Hfield.
  destruct (normalized_field_value _ _ _ _ _ _ Hobj Hclosed Hbelow Hrequired
              Hcall field Hfield) as ([keys Hfk] & Hown & Hget).
  exists (extract_value (st_heap s) response keys).
  rewrite extractField_spec, Hfk. split; [done|]. split; [done|].
  rewrite Hget. unfold field_value. now rewrite Hfk.
Qed.

(** X8: the issues list names the missing required fields, in order.  Under
    the conditions of X7 the issues of the record returned are exactly the
    strings ["Missing field: f"] for the required fields [f] for which
    extraction answers [null], in the order of the list of required fields
    and as often as they occur in it. *)
Theorem issues_list_is_exact this response required s result s' :
  is_object response = true ->
  closed_heap (st_heap s) ->
  value_below (length (st_heap s)) response ->
  "_validation" ∉ required ->
  validateAndNormalize rt this response required s = Ok result s' ->
  issues_of (st_heap s') result
  = Some ((fun field => VStr ("Missing field: " +:+ field))
          <$> filter (fun field =>
                        extractField this response field s = Ok VNull s)
                     required).
Proof.
  intros Hobj Hclosed Hbelow Hrequired Hcall.
  erewrite validateAndNormalize_issues by eassumption.
  cbn zeta. rewrite required_fold_issues by done. cbn [fst app].
  f_equal. unfold issue_of. f_equal.
  apply list_filter_iff. intros field. apply field_missing_extractField.
Qed.

End Completeness.

(** ** Fault isolation in the handler *)



Lemma issues_flag_of_issues result issues s :
  issues_of (st_heap s) result = Some issues ->
  issues_flag result s = Ok (0 <? Z.of_nat (length issues)) s.
Proof.
  intros Hissues.
  destruct (issues_of_reads _ _ _ s eq_refl Hissues)
    as (validation & a & Hv & Ha & Harray).
  unfold issues_flag.
  erewrite bind_Ok by exact Hv. erewrite bind_Ok by exact Ha.
  erewrite bind_Ok; cycle 1.
  { rewrite get_member_ref. erewrite deref_lookup by exact Harray.
    reflexivity. }
  reflexivity.
Qed.

Section Faults.

Variable rt : runtime.

Lemma createFallbackResponse_issues s :
  exists result s',
    createFallbackResponse rt s = Ok result s'
    /\ issues_of (st_heap s') result
       = Some [VStr "Complete fallback response generated"].
Proof.
  do 2 eexists. split; [apply createFallbackResponse_spec|].
  unfold issues_of. cbn [st_heap get_property].
  erewrite (deref_after _ _ 3) by reflexivity.
  cbn -[deref Nat.add]. erewrite (deref_after _ _ 2) by reflexivity.
  cbn -[deref Nat.add]. now rewrite (lookup_after _ _ 1).
Qed.








(** With required fields that the tables do not inherit and that do not name
    [_validation], the handler returns, whatever the response is. *)
Lemma handleApiResponse_returns this apiResponse opts s :
  "_validation" ∉ requiredFields opts ->
  Forall (fun field => inherited ObjectPrototype field = false)
         (requiredFields opts) ->
  exists normalized issues s',
    validateAndNormalize rt (validator this) apiResponse (requiredFields opts) s
    = Ok normalized s'
    /\ issues_of (st_heap s') normalized = Some issues
    /\ handleApiResponse rt this apiResponse opts s
       = Ok (normalized,
             set_errorCount this
               (if 0 <? Z.of_nat (length issues)
                then errorCount this + 1 else 0)) s'.
Proof.
  intros Hrequired Hall.
  destruct (validateAndNormalize_returns rt (validator this) apiResponse
              (requiredFields opts) s Hrequired Hall)
    as (normalized & s' & Hcall).
  assert (exists issues, issues_of (st_heap s') normalized = Some issues)
    as [issues Hissues].
  { destruct (is_object apiResponse) eqn:Hobj.
    - eexists.
      exact (validateAndNormalize_issues rt _ _ _ _ _ _ Hobj Hrequired Hcall).
    - rewrite validateAndNormalize_guard in Hcall by done.
      destruct (createFallbackResponse_issues s) as (r & s1 & Hr & Hi).
      rewrite Hr in Hcall. injection Hcall as <- <-. eauto. }
  exists normalized, issues, s'. split; [done|]. split; [done|].
  now apply handleApiResponse_normalized.
Qed.





End Faults.

(** ** The error report *)

(** X11: the recommendations follow the count.  For a threshold that is not
    negative (the constructor sets 5), a handler gives no recommendation
    when its count is not positive, the two general ones when the count is
    positive and not above the threshold, and four when the count is above
    the threshold; so the report is "critical" exactly when it carries four
    recommendations.  A response normalised without an issue clears the
    recommendations of the handler that processed it, and one with an issue
    leaves at least two when the count was not negative. *)
Theorem recommendations_follow_count rt this s :
  0 <= maxErrors this ->
  (errorCount this <= 0 -> getRecommendations this = [])
  /\ (0 < errorCount this <= maxErrors this ->
      length (getRecommendations this) = 2%nat)
  /\ (maxErrors this < errorCount this ->
      length (getRecommendations this) = 4%nat)
  /\ (exists report s',
        generateErrorReport rt this s = Ok report s'
        /\ report_recommendations report = getRecommendations this
        /\ report_errorCount report = errorCount this
        /\ (report_status report = "critical"
            <-> length (report_recommendations report) = 4%nat))
  /\ (forall apiResponse opts normalized s1 issues,
        validateAndNormalize rt (validator this) apiResponse
          (requiredFields opts) s = Ok normalized s1 ->
        issues_of (st_heap s1) normalized = Some issues ->
        exists this',
          handleApiResponse rt this apiResponse opts s
          = Ok (normalized, this') s1
          /\ (issues = [] -> getRecommendations this' = [])
          /\ (issues <> [] -> 0 <= errorCount this ->
              (2 <= length (getRecommendations this'))%nat)).
Proof.
  intros Hmax. unfold getRecommendations.
  split; [|split; [|split; [|split]]].
  - intros Hcount.
    replace (0 <? errorCount this) with false by (symmetry; apply Z.ltb_ge; lia).
    replace (maxErrors this <? errorCount this) with false
      by (symmetry; apply Z.ltb_ge; lia).
    reflexivity.
  - intros [Hpos Hle].
    replace (0 <? errorCount this) with true by (symmetry; apply Z.ltb_lt; lia).
    replace (maxErrors this <? errorCount this) with false
      by (symmetry; apply Z.ltb_ge; lia).
    reflexivity.
  - intros Hgt.
    replace (0 <? errorCount this) with true by (symmetry; apply Z.ltb_lt; lia).
    replace (maxErrors this <? errorCount this) with true
      by (symmetry; apply Z.ltb_lt; lia).
    reflexivity.
  - do 2 eexists. split; [reflexivity|]. cbn [report_recommendations
      report_errorCount report_status]. split; [reflexivity|].
    split; [reflexivity|]. unfold getRecommendations.
    destruct (0 <? errorCount this) eqn:Hpos,
             (maxErrors this <? errorCount this) eqn:Hgt;
      cbn; split; try done; try lia.
  - intros apiResponse opts normalized s1 issues Hcall Hissues.
    eexists.
    split; [exact (handleApiResponse_normalized rt _ _ _ _ _ _ _ Hcall Hissues)|].
    cbn [set_errorCount errorCount maxErrors]. split.
    + intros ->. change (0 <? Z.of_nat (length (@nil value))) with false.
      cbn iota.
      replace (maxErrors this <? 0) with false
        by (symmetry; apply Z.ltb_ge; lia).
      reflexivity.
    + intros Hne Hcount. destruct issues as [|issue issues]; [done|].
      replace (0 <? Z.of_nat (length (issue :: issues))) with true
        by (symmetry; apply Z.ltb_lt; cbn [length]; lia).
      replace (0 <? errorCount this + 1) with true
        by (symmetry; apply Z.ltb_lt; lia).
      rewrite length_app. cbn [length]. lia.
Qed.

(** ** The plugin: what a request counts as *)

Section Plugin.

Variable rt : runtime.

Lemma sendMessage_required_ok :
  ("_validation" ∉ ["content"; "id"])
  /\ Forall (fun field => inherited ObjectPrototype field = false)
            ["content"; "id"].
Proof. split; [not_in_list|repeat constructor]. Qed.

Lemma sendMessage_call_returns this call s raw s1 :
  call s = Ok raw s1 ->
  exists safe issues s',
    validateAndNormalize rt (validator (apiHandler this)) raw
      ["content"; "id"] s1 = Ok safe s'
    /\ issues_of (st_heap s') safe = Some issues
    /\ sendMessage rt this call s
       = Ok (safe,
             {| apiHandler :=
                  set_errorCount (apiHandler this)
                    (if 0 <? Z.of_nat (length issues)
                     then errorCount (apiHandler this) + 1 else 0);
                plugin_options := plugin_options this;
                stats := count_success (0 <? Z.of_nat (length issues))
                           (count_request (stats this)) |}) s'.
Proof.
  intros Hcall.
  destruct sendMessage_required_ok as [Hrequired Hall].
  destruct (handleApiResponse_returns rt (apiHandler this) raw
              (sendMessage_options this) s1 Hrequired Hall)
    as (safe & issues & s' & Hnormalized & Hissues & Hhandled).
  exists safe, issues, s'. split; [exact Hnormalized|]. split; [done|].
  unfold sendMessage, try_then. rewrite Hcall, Hhandled.
  now rewrite (issues_flag_of_issues _ _ _ Hissues).
Qed.

Lemma sendMessage_call_throws this call s e s1 :
  call s = Throw e s1 ->
  exists result s',
    createFallbackResponse rt s1 = Ok result s'
    /\ sendMessage rt this call s
       = Ok (result,
             {| apiHandler := apiHandler this;
                plugin_options := plugin_options this;
                stats := count_failure (count_request (stats this)) |}) s'.
Proof.
  intros Hcall.
  destruct (createFallbackResponse_issues rt s1) as (r & s' & Hr & _).
  exists r, s'. split; [done|].
  unfold sendMessage, try_then. rewrite Hcall.
  now erewrite bind_Ok by exact Hr.
Qed.

(** X12: what the plugin counts as a failure.  [sendMessage] never throws.
    When the API call throws, it returns a fallback record created at that
    point, counts the request as failed and leaves the handler as it was.
    When the API call returns anything at all, an object or not, it returns
    the record normalisation gives for the required fields [content] and
    [id], counts the request as successful, counts a compatibility issue
    exactly when that record lists an issue, and the handler's error count
    goes up by one in that case and back to 0 otherwise. *)
Theorem sendMessage_counts_only_call_failures this call s :
  (forall e s', sendMessage rt this call s <> Throw e s')
  /\ (forall e s1,
        call s = Throw e s1 ->
        exists result s',
          createFallbackResponse rt s1 = Ok result s'
          /\ sendMessage rt this call s
             = Ok (result,
                   {| apiHandler := apiHandler this;
                      plugin_options := plugin_options this;
                      stats := count_failure (count_request (stats this)) |})
                  s')
  /\ (forall raw s1,
        call s = Ok raw s1 ->
        exists safe issues s',
          validateAndNormalize rt (validator (apiHandler this)) raw
            ["content"; "id"] s1 = Ok safe s'
          /\ issues_of (st_heap s') safe = Some issues
          /\ sendMessage rt this call s
             = Ok (safe,
                   {| apiHandler :=
                        set_errorCount (apiHandler this)
                          (if 0 <? Z.of_nat (length issues)
                           then errorCount (apiHandler this) + 1 else 0);
                      plugin_options := plugin_options this;
                      stats := count_success (0 <? Z.of_nat (length issues))
                                 (count_request (stats this)) |}) s').
Proof.
  split; [|split].
  - intros e s'. destruct (call s) as [raw s1|e1 s1|] eqn:Hcall.
    + destruct (sendMessage_call_returns this call s raw s1 Hcall)
        as (? & ? & ? & _ & _ & ->). discriminate.
    + destruct (sendMessage_call_throws this call s e1 s1 Hcall)
        as (? & ? & _ & ->). discriminate.
    + unfold sendMessage, try_then. rewrite Hcall. discriminate.
  - apply sendMessage_call_throws.
  - apply sendMessage_call_returns.
Qed.

(** X13: the counters stay consistent.  Every call of [sendMessage] that
    returns adds one to the total, and one to either the successful or the
    failed requests; it adds at most one compatibility issue, and only
    together with a successful request.
    So, from a plugin whose total is the sum of the successful and the failed
    requests and whose compatibility issues are at most the successful
    requests, the same holds after the call.  The call changes neither the
    plugin's options nor the handler's threshold and validator. *)
Theorem sendMessage_keeps_stats_consistent this call s result this' s' :
  sendMessage rt this call s = Ok (result, this') s' ->
  totalRequests (stats this') = totalRequests (stats this) + 1
  /\ (successfulRequests (stats this') = successfulRequests (stats this) + 1
      /\ failedRequests (stats this') = failedRequests (stats this)
      /\ compatibilityIssues (stats this)
         <= compatibilityIssues (stats this')
         <= compatibilityIssues (stats this) + 1
      \/ successfulRequests (stats this') = successfulRequests (stats this)
         /\ failedRequests (stats this') = failedRequests (stats this) + 1
         /\ compatibilityIssues (stats this')
            = compatibilityIssues (stats this))
  /\ (stats_consistent (stats this) -> stats_consistent (stats this'))
  /\ plugin_options this' = plugin_options this
  /\ maxErrors (apiHandler this') = maxErrors (apiHandler this)
  /\ validator (apiHandler this') = validator (apiHandler this).
Proof.
  intros Hsend.
  destruct (call s) as [raw s1|e1 s1|] eqn:Hcall.
  - destruct (sendMessage_call_returns this call s raw s1 Hcall)
      as (safe & issues & s2 & _ & _ & Heq).
    rewrite Heq in Hsend. injection Hsend as _ <- _.
    unfold stats_consistent.
    cbn [stats plugin_options apiHandler count_success count_request
           totalRequests successfulRequests failedRequests compatibilityIssues
           set_errorCount maxErrors validator].
    destruct (0 <? Z.of_nat (length issues));
      split_and!; try done; lia.
  - destruct (sendMessage_call_throws this call s e1 s1 Hcall)
      as (r & s2 & _ & Heq).
    rewrite Heq in Hsend. injection Hsend as _ <- _.
    unfold stats_consistent.
    cbn [stats plugin_options apiHandler count_failure count_request
           totalRequests successfulRequests failedRequests compatibilityIssues].
    split_and!; try done; lia.
  - unfold sendMessage, try_then in Hsend. rewrite Hcall in Hsend.
    discriminate.
Qed.

End Plugin.

(** ** The simulated API call *)

Lemma extract_value_flat (h : heap) l o keys :
  h !! l = Some o ->
  Forall (fun key => split_dot key = [key]) keys ->
  extract_value h (VRef l) keys
  = match find (object_has o) keys with
    | Some key => object_get o key
    | None => VNull
    end.
Proof.
  intros Hl Hkeys. unfold extract_value.
  induction Hkeys as [|key keys Hkey _ IH]; [done|].
  cbn [find]. unfold present at 1. rewrite Hkey.
  cbn [has_path is_object truthy typeof String.eqb Ascii.eqb Bool.eqb andb
         has_property].
  rewrite (deref_lookup _ _ _ Hl), andb_true_r.
  destruct (object_has o key).
  - rewrite Hkey. cbn [foldl follow get_property]. unfold follow.
    cbn [foldl get_property]. now rewrite (deref_lookup _ _ _ Hl).
  - exact IH.
Qed.

Lemma closed_heap_app (h ext : heap) :
  closed_heap h ->
  Forall (object_below (length h + length ext)) ext ->
  closed_heap (h ++ ext).
Proof.
  unfold closed_heap. intros Hh Hext. rewrite length_app.
  apply Forall_app. split; [|done].
  eapply Forall_impl; [exact Hh|].
  intros [props|elems]; cbn [object_below]; intros Hall;
    (eapply Forall_impl; [exact Hall|]).
  - intros [k [| | | | | | |l]]; cbn; lia.
  - intros [| | | | | | |l]; cbn; lia.
Qed.

Section Simulated.

Variable rt : runtime.

Lemma makeApiCall_spec pick message s :
  let n := length (st_heap s) in
  makeApiCall rt pick message s
  = Ok (object_get
          (ArrayObj [VRef (1 + n); VRef (3 + n); VRef (7 + n); VRef (8 + n)]%nat)
          (pretty (pick (st_random s))))
       (State
          (st_heap s
           ++ simulated_versions n (timestamp_at rt (st_clock s))
                (timestamp_at rt (1 + st_clock s))
                (timestamp_at rt (2 + st_clock s)) message)
          (3 + st_clock s) (S (st_random s))).
Proof.
  destruct s as [h c r]. cbn zeta. unfold makeApiCall.
  do 14 (erewrite bind_Ok
           by (unfold alloc, new_Date_toISOString, date_now, mbind, M_bind,
                 mret, M_ret;
               cbn [st_heap st_clock st_random]; reflexivity);
         cbn beta;
         rewrite ?length_app; cbn [length]; rewrite <- ?app_assoc; cbn [app];
         rewrite ?Nat.add_1_r).
  rewrite get_member_ref. cbn [st_heap st_clock st_random].
  rewrite !(Nat.add_comm (length h)).
  erewrite (deref_after h _ 9) by reflexivity.
  reflexivity.
Qed.

Lemma simulated_pick (a b c d : value) i :
  (i < 4)%nat ->
  object_get (ArrayObj [a; b; c; d]) (pretty i) = nth i [a; b; c; d] VUndefined.
Proof.
  intros Hi. destruct i as [|[|[|[|i]]]]; [reflexivity..|lia].
Qed.

Lemma field_keys_reference this :
  fieldMappings this = reference_fieldMappings ->
  field_keys this "content"
  = Some ["content"; "text"; "message"; "response"; "result"]
  /\ field_keys this "id" = Some ["id"; "messageId"; "requestId"; "uuid"].
Proof. intros Hmap. unfold field_keys. rewrite Hmap. split; reflexivity. Qed.

Lemma simulated_versions_closed h t1 t2 t3 message :
  closed_heap h ->
  closed_heap (h ++ simulated_versions (length h) t1 t2 t3 message).
Proof.
  intros Hclosed. apply closed_heap_app; [done|].
  unfold simulated_versions; cbn [length];
    repeat (constructor; cbn; try lia).
Qed.

(** X14: the simulated API.  With the synonym table of the constructor, in a
    store all of whose references are allocated, a [sendMessage] whose call
    is the simulated [makeApiCall] always returns and counts the request as
    successful.  Versions 1 and 2 are normalised without an issue and reset
    the handler's error count; version 3, whose content and identifier are
    nested under [data], is not resolved by the table: it gets the issues
    for [content] and [id] and the default content; version 4 gets the issue
    for [id].  For versions 3 and 4 a compatibility issue is counted and
    the error count goes up by one.  The record keeps the version chosen as
    its [_original]. *)
Theorem sendMessage_simulated_versions this pick message s :
  fieldMappings (validator (apiHandler this)) = reference_fieldMappings ->
  closed_heap (st_heap s) ->
  (pick (st_random s) < 4)%nat ->
  let i := pick (st_random s) in
  let response := VRef (version_offset i + length (st_heap s)) in
  exists s1 safe s',
    makeApiCall rt pick message s = Ok response s1
    /\ sendMessage rt this (makeApiCall rt pick message) s
       = Ok (safe,
             {| apiHandler :=
                  set_errorCount (apiHandler this)
                    (if (2 <=? i)%nat
                     then errorCount (apiHandler this) + 1 else 0);
                plugin_options := plugin_options this;
                stats := count_success (2 <=? i)%nat
                           (count_request (stats this)) |}) s'
    /\ issues_of (st_heap s') safe = Some (simulated_issues i)
    /\ get_property (st_heap s') safe "content"
       = (if (i =? 2)%nat
          then default_of (validator (apiHandler this)) "content"
          else simulated_reply message)
    /\ get_property (st_heap s') safe "_original" = response.
Proof.
  intros Hmap Hclosed Hi. cbn zeta.
  pose proof (makeApiCall_spec pick message s) as Hcall. cbn zeta in Hcall.
  rewrite simulated_pick in Hcall by done.
  destruct (field_keys_reference _ Hmap) as [Hcontent Hid].
  match type of Hcall with _ = Ok _ ?st =>
    pose proof (simulated_versions_closed _
                  (timestamp_at rt (st_clock s))
                  (timestamp_at rt (1 + st_clock s))
                  (timestamp_at rt (2 + st_clock s)) message Hclosed)
      as Hclosed1;
    set (s1 := st) in *
  end.
  change (closed_heap (st_heap s1)) in Hclosed1.
  assert (Hrequired : "_validation" ∉ ["content"; "id"]) by not_in_list.
  assert (Hversion : exists o,
             nth (pick (st_random s))
               [VRef (1 + length (st_heap s)); VRef (3 + length (st_heap s));
                VRef (7 + length (st_heap s)); VRef (8 + length (st_heap s))]%nat
               VUndefined
             = VRef (version_offset (pick (st_random s)) + length (st_heap s))
             /\ st_heap s1 !! (version_offset (pick (st_random s))
                               + length (st_heap s))%nat = Some o
             /\ negb (not_null
                        (match find (object_has o)
                                 ["content"; "text"; "message"; "response";
                                  "result"] with
                         | Some key => object_get o key
                         | None => VNull
                         end))
                = (pick (st_random s) =? 2)%nat
             /\ negb (not_null
                        (match find (object_has o)
                                 ["id"; "messageId"; "requestId"; "uuid"] with
                         | Some key => object_get o key
                         | None => VNull
                         end))
                = (2 <=? pick (st_random s))%nat
             /\ (match find (object_has o)
                              ["content"; "text"; "message"; "response";
                               "result"] with
                 | Some key => object_get o key
                 | None => VNull
                 end)
                = (if (pick (st_random s) =? 2)%nat then VNull
                   else simulated_reply message)).
  { subst s1. cbn [st_heap].
    destruct (pick (st_random s)) as [|[|[|[|i]]]]; [..|lia];
      cbn [version_offset]; rewrite lookup_after; eexists;
      (split; [reflexivity|]); (split; [reflexivity|]); repeat split. }
  destruct Hversion as (o & Hnth & Hlookup & Hmissing_content & Hmissing_id
                        & Hvalue).
  rewrite Hnth in Hcall.
  set (response := VRef (version_offset (pick (st_random s))
                         + length (st_heap s))) in *.
  assert (Hobj : is_object response = true) by reflexivity.
  assert (Hbelow : value_below (length (st_heap s1)) response).
  { cbn [value_below response]. apply lookup_lt_is_Some. eauto. }
  assert (Hflat : forall keys,
             Forall (fun key => split_dot key = [key]) keys ->
             extract_value (st_heap s1) response keys
             = match find (object_has o) keys with
               | Some key => object_get o key
               | None => VNull
               end).
  { intros keys. now apply extract_value_flat. }
  assert (Hmc : field_missing (validator (apiHandler this)) (st_heap s1)
                  response "content" = (pick (st_random s) =? 2)%nat).
  { unfold field_missing. rewrite Hcontent, Hflat by repeat constructor.
    exact Hmissing_content. }
  assert (Hmi : field_missing (validator (apiHandler this)) (st_heap s1)
                  response "id" = (2 <=? pick (st_random s))%nat).
  { unfold field_missing. rewrite Hid, Hflat by repeat constructor.
    exact Hmissing_id. }
  destruct (sendMessage_call_returns rt this _ s _ _ Hcall)
    as (safe & issues & s' & Hnormalized & Hissues & Hsend).
  pose proof (validateAndNormalize_issues rt _ _ _ _ _ _ Hobj Hrequired
                Hnormalized) as Hlist.
  cbn zeta in Hlist. rewrite required_fold_issues in Hlist by done.
  cbn [fst app] in Hlist.
  rewrite !filter_cons, filter_nil, Hmc, Hmi in Hlist.
  assert (Hexact : issues = simulated_issues (pick (st_random s))
                   /\ (0 <? Z.of_nat (length issues))
                      = (2 <=? pick (st_random s))%nat).
  { rewrite Hissues in Hlist. injection Hlist as ->.
    destruct (pick (st_random s)) as [|[|[|[|i]]]]; [..|lia];
      split; reflexivity. }
  destruct Hexact as [-> Hflag]. rewrite Hflag in Hsend.
  exists s1, safe, s'. split; [exact Hcall|]. split; [exact Hsend|].
  split; [exact Hissues|]. split.
  - destruct (normalized_field_value rt _ _ _ _ _ _ Hobj Hclosed1 Hbelow
                Hrequired Hnormalized "content") as (_ & _ & ->).
    { left. apply elem_of_cons. now left. }
    unfold field_value. rewrite Hcontent, Hflat by repeat constructor.
    rewrite Hvalue. now destruct (pick (st_random s) =? 2)%nat.
  - destruct (validateAndNormalize_result rt _ _ _ _ _ _ Hobj Hrequired
                Hnormalized) as (-> & -> & _ & Horiginal).
    rewrite get_property_building_response.
    apply object_get_own, Horiginal. not_in_list.
Qed.

End Simulated.

(** ** The options of a new plugin *)

Lemma alist_get_not_in {A} (l : list (string * A)) k :
  k ∉ l.*1 -> alist_get l k = None.
Proof.
  induction l as [|[k' a] l IH]; [done|].
  cbn [fmap list_fmap fst alist_get]. intros [Hne Hnin]%not_elem_of_cons.
  apply not_eq_sym, String.eqb_neq in Hne. rewrite Hne. now apply IH.
Qed.

Lemma alist_get_spread (source : list (string * value)) k : forall target,
  NoDup source.*1 ->
  alist_get (spread_into target source) k
  = match alist_get source k with
    | Some v => Some v
    | None => alist_get target k
    end.
Proof.
  unfold spread_into.
  induction source as [|[k' v'] source IH]; intros target Hnodup; [done|].
  cbn [fmap list_fmap fst] in Hnodup. apply NoDup_cons in Hnodup as [Hnin Hnodup].
  cbn [foldl fst snd alist_get]. rewrite IH by done.
  destruct (String.eqb k' k) eqn:Hk.
  - apply String.eqb_eq in Hk as ->.
    rewrite (alist_get_not_in source k) by done. apply alist_get_set_eq.
  - apply String.eqb_neq in Hk.
    destruct (alist_get source k); [done|]. now apply alist_get_set_ne.
Qed.

(** X15: the options of a new plugin.  The constructor always returns.  For
    an options object with the own properties [options], every one of them
    is an option of the plugin with the value given, also when that value is
    falsy (a [timeout] of 0, an empty [apiEndpoint]): the defaults written
    with [||] are overwritten by the spread that follows them.  Each of the
    four names [apiEndpoint], [timeout], [retryCount] and [enableDebug] that
    [options] does not have gets its default, and the plugin has no other
    option.  The counters start at 0, and the handler starts with error
    count 0, threshold 5 and the synonym table of the constructor. *)
Theorem new_plugin_options rt options s :
  NoDup options.*1 ->
  exists plugin s',
    new_VuePressAiPlugin rt options s = Ok plugin s'
    /\ (forall k v,
          alist_get options k = Some v ->
          alist_get (plugin_options plugin) k = Some v)
    /\ (forall k,
          alist_get options k = None ->
          alist_get (plugin_options plugin) k = alist_get plugin_defaults k)
    /\ stats plugin = {| totalRequests := 0; successfulRequests := 0;
                         failedRequests := 0; compatibilityIssues := 0 |}
    /\ errorCount (apiHandler plugin) = 0
    /\ maxErrors (apiHandler plugin) = 5
    /\ fieldMappings (validator (apiHandler plugin)) = reference_fieldMappings.
Proof.
  intros Hnodup. do 2 eexists. split; [reflexivity|].
  cbn [plugin_options stats apiHandler errorCount maxErrors validator
         fieldMappings].
  split; [|split; [|repeat split]].
  - intros k v Hk. rewrite alist_get_spread by done. now rewrite Hk.
  - intros k Hk. rewrite alist_get_spread by done. rewrite Hk.
    assert (Hget : forall name,
               inherited ObjectPrototype name = false ->
               alist_get options name = None ->
               object_get (PlainObj options) name = VUndefined).
    { intros name Hni Hname. cbn [object_get]. rewrite Hname.
      now apply inherited_get_undefined. }
    cbn [alist_get plugin_defaults].
    destruct (String.eqb "apiEndpoint" k) eqn:H1.
    { apply String.eqb_eq in H1 as <-. now rewrite Hget. }
    destruct (String.eqb "timeout" k) eqn:H2.
    { apply String.eqb_eq in H2 as <-. now rewrite Hget. }
    destruct (String.eqb "retryCount" k) eqn:H3.
    { apply String.eqb_eq in H3 as <-. now rewrite Hget. }
    destruct (String.eqb "enableDebug" k) eqn:H4.
    { apply String.eqb_eq in H4 as <-. now rewrite Hget. }
    reflexivity.
Qed.

(** ** A key that two fields share *)

Section SharedKey.

Variable rt : runtime.

(** X16: [message] answers for two fields.  The synonym table of the
    constructor lists [message] for [content] and for [error].  So for a
    response that has [message] with a value other than [null], and has
    none of [content], [text], [error], [error_message] and [errorMessage],
    extraction gives that value for [content] and for [error], and a record
    normalised with [content] required carries the reply's text as its
    [error] as well as its [content]. *)
Theorem message_is_content_and_error this response required s result s' v :
  fieldMappings this = reference_fieldMappings ->
  is_object response = true ->
  closed_heap (st_heap s) ->
  value_below (length (st_heap s)) response ->
  "_validation" ∉ required ->
  "content" ∈ required ->
  Forall (fun key => hasNestedProperty response key s = Ok false s)
         ["content"; "text"; "error"; "error_message"; "errorMessage"] ->
  hasNestedProperty response "message" s = Ok true s ->
  getNestedProperty response "message" s = Ok v s ->
  v <> VNull ->
  validateAndNormalize rt this response required s = Ok result s' ->
  extractField this response "content" s = Ok v s
  /\ extractField this response "error" s = Ok v s
  /\ get_property (st_heap s') result "content" = v
  /\ get_property (st_heap s') result "error" = v.
Proof.
  intros Hmap Hobj Hclosed Hbelow Hrequired Hcontent Habsent Hhas Hget Hv Hcall.
  apply hasNestedProperty_result in Hhas.
  rewrite getNestedProperty_guarded in Hget by done. injection Hget as Hget.
  rewrite !Forall_cons in Habsent.
  destruct Habsent as (H1 & H2 & H3 & H4 & H5 & _).
  apply hasNestedProperty_result in H1, H2, H3, H4, H5.
  assert (Hkc : field_keys this "content"
                = Some (["content"; "text"] ++ "message"
                                               :: ["response"; "result"])).
  { unfold field_keys. now rewrite Hmap. }
  assert (Hke : field_keys this "error"
                = Some (["error"; "error_message"; "errorMessage"]
                          ++ "message" :: [])).
  { unfold field_keys. now rewrite Hmap. }
  assert (Hvc : extract_value (st_heap s) response
                  (["content"; "text"] ++ "message" :: ["response"; "result"])
                = v).
  { rewrite extract_value_first; [done| |done]. now repeat constructor. }
  assert (Hve : extract_value (st_heap s) response
                  (["error"; "error_message"; "errorMessage"]
                     ++ "message" :: [])
                = v).
  { rewrite extract_value_first; [done| |done]. now repeat constructor. }
  assert (Hnn : not_null v = true) by now destruct v.
  rewrite !extractField_spec, Hkc, Hke, Hvc, Hve.
  split; [done|]. split; [done|]. split.
  - destruct (normalized_field_value rt _ _ _ _ _ _ Hobj Hclosed Hbelow
                Hrequired Hcall "content") as (_ & _ & ->); [now left|].
    unfold field_value. now rewrite Hkc, Hvc, Hnn.
  - destruct (normalized_field_value rt _ _ _ _ _ _ Hobj Hclosed Hbelow
                Hrequired Hcall "error") as (_ & _ & ->).
    { right. unfold optionalFields.
      do 4 (apply elem_of_cons; right). apply elem_of_cons. now left. }
    unfold field_value. now rewrite Hke, Hve, Hnn.
Qed.

End SharedKey.

(** ** The further properties at sample inputs *)

Lemma nested_paths_compose_witness :
  hasNestedProperty (VRef 1%nat) "data.message" (sample_state sample_nested)
  = hasNestedProperty (VRef 2%nat) "message" (sample_state sample_nested)
  /\ getNestedProperty (VRef 1%nat) "data.message" (sample_state sample_nested)
     = getNestedProperty (VRef 2%nat) "message" (sample_state sample_nested).
Proof.
  apply (nested_paths_compose (VRef 1%nat) "data" "message" (VRef 2%nat)
           (sample_state sample_nested)); reflexivity.
Defined.

Lemma getNestedProperty_throws_through_null_witness :
  hasNestedProperty (VRef 1%nat) "empty.text" (sample_state sample_nested)
  = Ok false (sample_state sample_nested)
  /\ exists msg,
       getNestedProperty (VRef 1%nat) "empty.text" (sample_state sample_nested)
       = Throw (TypeError msg) (sample_state sample_nested).
Proof.
  apply (getNestedProperty_throws_through_null (VRef 1%nat) "empty" "text"
           VNull (sample_state sample_nested));
    [reflexivity|reflexivity|now left].
Defined.

Lemma resolution_on_non_object_witness :
  hasNestedProperty (VNum 123) "content" (sample_state [])
  = Ok false (sample_state [])
  /\ extractField sample_validator (VNum 123) "content" (sample_state [])
     = Ok VNull (sample_state []).
Proof.
  destruct (resolution_on_non_object sample_validator (VNum 123)
              (sample_state []) eq_refl) as [Hhas Hextract].
  split; [apply Hhas|]. apply Hextract. left. eexists. reflexivity.
Defined.

Lemma appended_synonym_is_conservative_witness :
  extractField nested_validator (VRef 1%nat) "content"
    (sample_state sample_content)
  = extractField sample_validator (VRef 1%nat) "content"
      (sample_state sample_content)
  /\ extractField nested_validator (VRef 1%nat) "content"
       (sample_state sample_nested)
     = getNestedProperty (VRef 1%nat) "data.message"
         (sample_state sample_nested).
Proof.
  split.
  - apply (proj1 (appended_synonym_is_conservative sample_validator
                    nested_validator "content" _ "data.message" (VRef 1%nat)
                    (sample_state sample_content) eq_refl eq_refl)
             "content"); [|reflexivity].
    apply elem_of_cons. now left.
  - apply (proj2 (appended_synonym_is_conservative sample_validator
                    nested_validator "content" _ "data.message" (VRef 1%nat)
                    (sample_state sample_nested) eq_refl eq_refl));
      [repeat constructor|reflexivity].
Defined.

Lemma generateFallbackId_injective_witness :
  exists id1 id2,
    generateFallbackId sample_runtime (State [] 0 0) = Ok id1 (State [] 1 1)
    /\ generateFallbackId sample_runtime (State [] 1 1) = Ok id2 (State [] 2 2)
    /\ id1 <> id2.
Proof.
  destruct (generateFallbackId_injective sample_runtime (State [] 0 0)
              (State [] 1 1)) as (id1 & id2 & H1 & H2 & _ & Hsame).
  exists id1, id2. split; [exact H1|]. split; [exact H2|].
  intros Heq. destruct (Hsame Heq) as [Hclock _]. discriminate Hclock.
Defined.

Lemma normalized_record_is_complete_witness :
  exists result s',
    validateAndNormalize sample_runtime sample_validator (VRef 1%nat)
      ["content"] (sample_state sample_content)
    = Ok result s'
    /\ exists v,
         extractField sample_validator (VRef 1%nat) "model"
           (sample_state sample_content)
         = Ok v (sample_state sample_content)
         /\ own_key (st_heap s') result "model" = true
         /\ get_property (st_heap s') result "model"
            = if not_null v then v else default_of sample_validator "model".
Proof.
  do 2 eexists. split; [vm_compute; reflexivity|].
  apply (normalized_record_is_complete sample_runtime sample_validator
           (VRef 1%nat) ["content"] (sample_state sample_content)).
  - reflexivity.
  - closed_sample.
  - cbn. lia.
  - not_in_list.
  - vm_compute. reflexivity.
  - right. unfold optionalFields. do 2 (apply elem_of_cons; right).
    apply elem_of_cons. now left.
Defined.

Lemma issues_list_is_exact_witness :
  exists result s',
    validateAndNormalize sample_runtime sample_validator (VRef 1%nat)
      ["content"; "id"] (sample_state sample_content)
    = Ok result s'
    /\ issues_of (st_heap s') result
       = Some ((fun field => VStr ("Missing field: " +:+ field))
               <$> filter (fun field =>
                             extractField sample_validator (VRef 1%nat) field
                               (sample_state sample_content)
                             = Ok VNull (sample_state sample_content))
                          ["content"; "id"]).
Proof.
  do 2 eexists. split; [vm_compute; reflexivity|].
  apply (issues_list_is_exact sample_runtime sample_validator
           (VRef 1%nat) ["content"; "id"] (sample_state sample_content)).
  - reflexivity.
  - closed_sample.
  - cbn. lia.
  - not_in_list.
  - vm_compute. reflexivity.
Defined.



Lemma recommendations_follow_count_witness :
  length (getRecommendations sample_handler) = 2%nat
  /\ length (getRecommendations (set_errorCount sample_handler 6)) = 4%nat.
Proof.
  split.
  - apply (recommendations_follow_count sample_runtime sample_handler
             (sample_state [])); cbn; lia.
  - apply (recommendations_follow_count sample_runtime
             (set_errorCount sample_handler 6) (sample_state []));
      cbn; lia.
Defined.

Lemma sendMessage_counts_only_call_failures_witness :
  (exists result s',
     sendMessage sample_runtime sample_plugin failing_call (sample_state [])
     = Ok (result,
           {| apiHandler := sample_handler;
              plugin_options := plugin_options sample_plugin;
              stats := {| totalRequests := 4; successfulRequests := 2;
                          failedRequests := 2; compatibilityIssues := 1 |} |})
          s')
  /\ exists safe issues s',
       issues_of (st_heap s') safe = Some issues
       /\ sendMessage sample_runtime sample_plugin (returning_call (VNum 123))
            (sample_state [])
          = Ok (safe,
                {| apiHandler :=
                     set_errorCount sample_handler
                       (if 0 <? Z.of_nat (length issues) then 2 + 1 else 0);
                   plugin_options := plugin_options sample_plugin;
                   stats := count_success (0 <? Z.of_nat (length issues))
                              (count_request (stats sample_plugin)) |}) s'.
Proof.
  split.
  - destruct (sendMessage_counts_only_call_failures sample_runtime
                sample_plugin failing_call (sample_state []))
      as (_ & Hthrows & _).
    destruct (Hthrows _ _ eq_refl) as (result & s' & _ & Hsend). eauto.
  - destruct (sendMessage_counts_only_call_failures sample_runtime
                sample_plugin (returning_call (VNum 123)) (sample_state []))
      as (_ & _ & Hreturns).
    destruct (Hreturns _ _ eq_refl) as (safe & issues & s' & _ & Hissues & Hsend).
    eauto.
Defined.

Lemma sendMessage_keeps_stats_consistent_witness :
  exists result this' s',
    sendMessage sample_runtime sample_plugin (returning_call (VRef 1%nat))
      (sample_state sample_content)
    = Ok (result, this') s'
    /\ totalRequests (stats this') = 4
    /\ stats_consistent (stats this').
Proof.
  do 3 eexists. split; [vm_compute; reflexivity|].
  edestruct (sendMessage_keeps_stats_consistent sample_runtime sample_plugin
               (returning_call (VRef 1%nat)) (sample_state sample_content))
    as (Htotal & _ & Hkeeps & _); [vm_compute; reflexivity|].
  split; [exact Htotal|]. apply Hkeeps. unfold stats_consistent. cbn. lia.
Defined.

Lemma sendMessage_simulated_versions_witness :
  exists s1 safe s',
    makeApiCall sample_runtime (fun _ => 2%nat) "hello" (sample_state [])
    = Ok (VRef 8%nat) s1
    /\ sendMessage sample_runtime sample_plugin
         (makeApiCall sample_runtime (fun _ => 2%nat) "hello") (sample_state [])
       = Ok (safe,
             {| apiHandler := set_errorCount sample_handler 3;
                plugin_options := plugin_options sample_plugin;
                stats := {| totalRequests := 4; successfulRequests := 3;
                            failedRequests := 1; compatibilityIssues := 2 |} |})
            s'
    /\ issues_of (st_heap s') safe
       = Some [VStr "Missing field: content"; VStr "Missing field: id"]
    /\ get_property (st_heap s') safe "content" = VStr ""
    /\ get_property (st_heap s') safe "_original" = VRef 8%nat.
Proof.
  apply (sendMessage_simulated_versions sample_runtime sample_plugin
           (fun _ => 2%nat) "hello" (sample_state [])).
  - reflexivity.
  - closed_sample.
  - cbn. lia.
Defined.

Lemma new_plugin_options_witness :
  exists plugin s',
    new_VuePressAiPlugin sample_runtime sample_plugin_options (State [] 0 0)
    = Ok plugin s'
    /\ alist_get (plugin_options plugin) "timeout" = Some (VNum 0)
    /\ alist_get (plugin_options plugin) "retryCount" = Some (VNum 3).
Proof.
  assert (Hnodup : NoDup sample_plugin_options.*1).
  { cbn. repeat (apply NoDup_cons; split; [not_in_list|]). apply NoDup_nil_2. }
  destruct (new_plugin_options sample_runtime sample_plugin_options
              (State [] 0 0) Hnodup)
    as (plugin & s' & Hnew & Hgiven & Hdefault & _).
  exists plugin, s'. split; [exact Hnew|]. split.
  - apply Hgiven. reflexivity.
  - rewrite Hdefault; reflexivity.
Defined.

Lemma message_is_content_and_error_witness :
  exists result s',
    validateAndNormalize sample_runtime sample_validator (VRef 1%nat)
      ["content"] (sample_state sample_message)
    = Ok result s'
    /\ extractField sample_validator (VRef 1%nat) "content"
         (sample_state sample_message)
       = Ok (VStr "hi") (sample_state sample_message)
    /\ extractField sample_validator (VRef 1%nat) "error"
         (sample_state sample_message)
       = Ok (VStr "hi") (sample_state sample_message)
    /\ get_property (st_heap s') result "content" = VStr "hi"
    /\ get_property (st_heap s') result "error" = VStr "hi".
Proof.
  do 2 eexists. split; [vm_compute; reflexivity|].
  apply (message_is_content_and_error sample_runtime sample_validator
           (VRef 1%nat) ["content"] (sample_state sample_message)).
  - reflexivity.
  - reflexivity.
  - closed_sample.
  - cbn. lia.
  - not_in_list.
  - apply elem_of_cons. now left.
  - repeat constructor.
  - reflexivity.
  - reflexivity.
  - discriminate.
  - vm_compute. reflexivity.
Defined.
